(** * CoRoutines: a cooperative task scheduler for Arduino

    Shallow embedding of [src/CoRoutines.h] and [src/CoRoutines.cpp]
    (namespace [coroutines]): class [CoRoutine] (the per-task timing and
    suspension state machine) and class [Scheduler] (the growable array of
    task pointers with its sweep [runOnce]).

    Conventions.
    - [unsigned long] values (time stamps) are integers in [0, 2^ulong_bits)
      and every arithmetic result is reduced modulo [2^ulong_bits].
    - [int] values (what [worker()] returns) lie in
      [-2^(int_bits-1), 2^(int_bits-1)).
    - [size_t] counters ([arraySize], [noEntries], loop indices) are [nat]:
      an array of [n] pointers occupies [n * ptr_bytes] bytes of the address
      space, so these counters stay far below the range of [size_t];
      [malloc] is taken to succeed.
    - The array [coRoutines] is a block of bytes, [ptr_bytes] per entry,
      because [removeCoRoutine] hands a byte count to [memcpy]; a pointer
      is an address, stored least significant byte first.
    - A stored pointer is dereferenced through a heap of live objects;
      dereferencing a pointer to no object is undefined behaviour, [None].
    - [millis()] is an oracle: the k-th call returns the k-th reading.
    - [worker()] is pure virtual; an object carries the sequence of values
      its override returns, one per invocation. *)

From Stdlib Require Import ZArith Lia.
From Stdlib Require Import Strings.Byte.
From stdpp Require Import base option list gmap sorting.

Local Open Scope Z_scope.

(** ** Platform: the widths the C++ types have on the target *)

Class Platform := {
  int_bits : Z;        (* width of [int] *)
  ulong_bits : Z;      (* width of [unsigned long] *)
  ptr_bytes : nat;     (* sizeof(CoRoutine* ) *)
  int_bits_min : 16 ≤ int_bits;
  ulong_bits_min : 32 ≤ ulong_bits;
  int_le_ulong : int_bits ≤ ulong_bits;
  ptr_bytes_pos : (0 < ptr_bytes)%nat
}.

(** Arduino boards with an 8-bit AVR (Uno, Mega, ...). *)
#[refine] Instance avr : Platform :=
  {| int_bits := 16; ulong_bits := 32; ptr_bytes := 2 |}.
Proof. all: lia. Defined.

(** Arduino boards with a 32-bit ARM (Due, Zero, ...). *)
#[refine] Instance arm32 : Platform :=
  {| int_bits := 32; ulong_bits := 32; ptr_bytes := 4 |}.
Proof. all: lia. Defined.

Section Task.
Context {pf : Platform}.

(** Value of an [unsigned long] expression: reduction modulo [2^ulong_bits]. *)
Definition to_ulong (z : Z) : Z := z mod 2 ^ ulong_bits.

(** Value of an [int]: two's complement representative. *)
Definition to_int (z : Z) : Z :=
  (z + 2 ^ (int_bits - 1)) mod 2 ^ int_bits - 2 ^ (int_bits - 1).

Definition int_range (v : Z) : Prop :=
  - 2 ^ (int_bits - 1) ≤ v < 2 ^ (int_bits - 1).

Definition ulong_range (t : Z) : Prop := 0 ≤ t < 2 ^ ulong_bits.

(** [unsigned long + int]: the [int] operand is converted to
    [unsigned long], the sum wraps. *)
Definition ulong_add_int (t : Z) (v : Z) : Z := to_ulong (t + to_ulong v).

(** ** The clock collaborator [millis()] *)

Record Clock := mkClock {
  readings : nat → Z;   (* what the k-th call of [millis()] returns *)
  reads : nat           (* number of calls made so far *)
}.

Definition millis (k : Clock) : Z * Clock :=
  (to_ulong (readings k (reads k)),
   {| readings := readings k; reads := S (reads k) |}).

(** ** class CoRoutine *)

Record CoRoutine := mkCoRoutine {
  suspended : bool;
  waitRelativeToWorkerExit : bool;
  nextRun : Z;
  (* the subclass: the value its [worker()] returns on the k-th invocation,
     and the number of invocations so far *)
  worker_returns : nat → Z;
  worker_calls : nat
}.

(** [CoRoutine::CoRoutine(bool waitRelativeToWorkerExit)] for a subclass
    whose worker returns [returns]. *)
Definition CoRoutine_new (returns : nat → Z) (relativeToExit : bool) : CoRoutine :=
  {| suspended := false;
     waitRelativeToWorkerExit := relativeToExit;
     nextRun := 0;
     worker_returns := returns;
     worker_calls := 0 |}.

Definition set_suspended (b : bool) (c : CoRoutine) : CoRoutine :=
  {| suspended := b;
     waitRelativeToWorkerExit := waitRelativeToWorkerExit c;
     nextRun := nextRun c;
     worker_returns := worker_returns c;
     worker_calls := worker_calls c |}.

Definition set_nextRun (t : Z) (c : CoRoutine) : CoRoutine :=
  {| suspended := suspended c;
     waitRelativeToWorkerExit := waitRelativeToWorkerExit c;
     nextRun := t;
     worker_returns := worker_returns c;
     worker_calls := worker_calls c |}.

(** [virtual int worker()]: one invocation of the override. *)
Definition worker (c : CoRoutine) : Z * CoRoutine :=
  (to_int (worker_returns c (worker_calls c)),
   {| suspended := suspended c;
      waitRelativeToWorkerExit := waitRelativeToWorkerExit c;
      nextRun := nextRun c;
      worker_returns := worker_returns c;
      worker_calls := S (worker_calls c) |}).

(** [void CoRoutine::resume()] *)
Definition resume (c : CoRoutine) (k : Clock) : CoRoutine * Clock :=
  let '(startOfRun, k1) := millis k in
  if negb (suspended c) && (nextRun c <=? startOfRun) then
    let '(waitTime, c1) := worker c in
    if waitTime =? -1 then
      (set_suspended true c1, k1)
    else if waitRelativeToWorkerExit c1 then
      let '(now, k2) := millis k1 in
      (set_nextRun (ulong_add_int now waitTime) c1, k2)
    else if negb (nextRun c1 =? 0) then
      (set_nextRun (ulong_add_int (nextRun c1) waitTime) c1, k1)
    else
      (set_nextRun (ulong_add_int startOfRun waitTime) c1, k1)
  else
    (c, k1).

(** [bool CoRoutine::isSuspended()] *)
Definition isSuspended (c : CoRoutine) : bool := suspended c.

(** [void CoRoutine::awake()] *)
Definition awake (c : CoRoutine) : CoRoutine :=
  if suspended c then set_suspended false (set_nextRun 0 c) else c.

(** [void CoRoutine::suspend()] *)
Definition suspend (c : CoRoutine) : CoRoutine := set_suspended true c.

(** [n] calls of [resume()] in a row on the same object. *)
Fixpoint resume_n (n : nat) (c : CoRoutine) (k : Clock) : CoRoutine * Clock :=
  match n with
  | O => (c, k)
  | S n' => let '(c', k') := resume c k in resume_n n' c' k'
  end.

(** The reading a call of [resume()] takes first. *)
Definition startOfRun_of (k : Clock) : Z := to_ulong (readings k (reads k)).

(** The reading a second [millis()] inside the same [resume()] returns. *)
Definition exitTime_of (k : Clock) : Z := to_ulong (readings k (S (reads k))).

(** What the worker returns when invoked in state [c]. *)
Definition waitTime_of (c : CoRoutine) : Z := to_int (worker_returns c (worker_calls c)).

(** The guard of [resume()]. *)
Definition due (c : CoRoutine) (k : Clock) : bool :=
  negb (suspended c) && (nextRun c <=? startOfRun_of k).

(** The time stamp a run of the worker adds its return value to. *)
Definition schedule_base (c : CoRoutine) (k : Clock) : Z :=
  if waitRelativeToWorkerExit c then exitTime_of k
  else if nextRun c =? 0 then startOfRun_of k
  else nextRun c.

End Task.

(** ** Raw memory: the block behind [CoRoutine** coRoutines] *)

Section Memory.
Context {pf : Platform}.

Definition Z_of_byte (b : byte) : Z := Z.of_N (Byte.to_N b).

Definition byte_of_Z (z : Z) : byte :=
  default x00 (Byte.of_N (Z.to_N (z mod 256))).

(** Object representation of a pointer: [n] bytes, least significant
    first (AVR and ARM Arduino cores are little-endian). *)
Fixpoint encode_ptr (n : nat) (p : Z) : list byte :=
  match n with
  | O => []
  | S n' => byte_of_Z p :: encode_ptr n' (p / 256)
  end.

Fixpoint decode_ptr (bs : list byte) : Z :=
  match bs with
  | [] => 0
  | b :: bs' => Z_of_byte b + 256 * decode_ptr bs'
  end.

(** [mem[i]] read as a [CoRoutine*]. *)
Definition load_ptr (mem : list byte) (i : nat) : Z :=
  decode_ptr (take ptr_bytes (drop (i * ptr_bytes)%nat mem)).

Fixpoint write_bytes (mem : list byte) (off : nat) (bs : list byte) : list byte :=
  match bs with
  | [] => mem
  | b :: bs' => write_bytes (<[off := b]> mem) (S off) bs'
  end.

(** [mem[i] = p] for a [CoRoutine*] [p]. *)
Definition store_ptr (mem : list byte) (i : nat) (p : Z) : list byte :=
  write_bytes mem (i * ptr_bytes)%nat (encode_ptr ptr_bytes p).

(** [memcpy(dst, src, n)] into a fresh block: the first [n] bytes of
    [dst] become the first [n] bytes of [src]. *)
Definition memcpy (dst src : list byte) (n : nat) : list byte :=
  take n src ++ drop n dst.

(** [memcpy(&mem[d], &mem[s], n)] inside one block, byte by byte from
    the lowest address upwards (the loop of avr-libc and newlib).  A read
    outside the block ends the copy; [removeCoRoutine] never reads
    outside ([removeCoRoutine_reads_in_block]), and for [d < s] the
    result is the one of [memmove] ([lookup_memcpy_within]). *)
Fixpoint memcpy_within (mem : list byte) (d s n : nat) : list byte :=
  match n with
  | O => mem
  | S n' =>
      match mem !! s with
      | Some b => memcpy_within (<[d := b]> mem) (S d) (S s) n'
      | None => mem
      end
  end.

End Memory.

(** ** class Scheduler *)

Section Registry.
Context {pf : Platform}.

(** Contents of storage returned by [malloc]: the byte found at each
    offset of a fresh block is not specified by the program. *)
Variable uninit : nat → byte.

Definition malloc (n : nat) : list byte := map uninit (seq 0 n).

Record Scheduler := mkScheduler {
  coRoutines : list byte;   (* the array; [[]] is the null pointer *)
  arraySize : nat;
  noEntries : nat
}.

(** [Scheduler::Scheduler()] *)
Definition Scheduler_new : Scheduler :=
  {| coRoutines := []; arraySize := 0; noEntries := 0 |}.

(** [void Scheduler::resize(size_t newSize)] *)
Definition resize (newSize : nat) (s : Scheduler) : Scheduler :=
  if (arraySize s <? newSize)%nat then
    let newSize' := if (arraySize s =? 0)%nat then 1%nat else (2 * arraySize s)%nat in
    let newArray := malloc (newSize' * ptr_bytes) in
    let newArray := memcpy newArray (coRoutines s) (arraySize s * ptr_bytes) in
    {| coRoutines := newArray; arraySize := newSize'; noEntries := noEntries s |}
  else s.

(** [void Scheduler::addCoRoutine(CoRoutine& coRoutine)]; [p] is
    [&coRoutine]. *)
Definition addCoRoutine (p : Z) (s : Scheduler) : Scheduler :=
  let s1 := {| coRoutines := coRoutines s; arraySize := arraySize s;
               noEntries := S (noEntries s) |} in
  let s2 := resize (noEntries s1) s1 in
  {| coRoutines := store_ptr (coRoutines s2) (noEntries s2 - 1) p;
     arraySize := arraySize s2;
     noEntries := noEntries s2 |}.

(** The search loop of [removeCoRoutine]:
    [for (size_t i = start; i != 0; --i) if (coRoutines[i] == p) ...]. *)
Fixpoint find_from (mem : list byte) (p : Z) (i : nat) : option nat :=
  match i with
  | O => None
  | S i' => if load_ptr mem i =? p then Some i else find_from mem p i'
  end.

(** [void Scheduler::removeCoRoutine(CoRoutine& coRoutine)] *)
Definition removeCoRoutine (p : Z) (s : Scheduler) : Scheduler :=
  if (noEntries s =? 0)%nat then s
  else
    let foundIndex :=
      match find_from (coRoutines s) p (noEntries s - 1) with
      | Some i => i
      | None => noEntries s
      end in
    if negb (foundIndex =? noEntries s)%nat then
      let entriesToMove := (noEntries s - (foundIndex + 1))%nat in
      {| coRoutines :=
           memcpy_within (coRoutines s)
             (foundIndex * ptr_bytes) ((foundIndex + 1) * ptr_bytes) entriesToMove;
         arraySize := arraySize s;
         noEntries := (noEntries s - 1)%nat |}
    else s.

(** The registered pointers, in array order. *)
Definition entries (s : Scheduler) : list Z :=
  map (load_ptr (coRoutines s)) (seq 0 (noEntries s)).

(** The objects the stored pointers refer to live outside the scheduler.
    [resumed] records, for observation only, every call
    [coRoutine->resume()] made by a sweep: the pointer and the number of
    the clock reading that call took as its [startOfRun]. *)
Record World := mkWorld {
  heap : gmap Z CoRoutine;
  clock : Clock;
  resumed : list (Z * nat)
}.

(** [coRoutine->resume()] through a pointer; dereferencing a pointer to
    no object is undefined behaviour ([None]). *)
Definition resume_at (p : Z) (w : World) : option World :=
  match heap w !! p with
  | Some c =>
      let '(c', k') := resume c (clock w) in
      Some {| heap := <[p := c']> (heap w);
              clock := k';
              resumed := resumed w ++ [(p, reads (clock w))] |}
  | None => None
  end.

(** First loop of [runOnce]:
    [for (size_t i = 0; i != noEntries; ++i) coRoutines[i]->resume();]
    with [todo = noEntries - i]. *)
Fixpoint resume_loop (s : Scheduler) (i todo : nat) (w : World) : option World :=
  match todo with
  | O => Some w
  | S todo' =>
      match resume_at (load_ptr (coRoutines s) i) w with
      | Some w' => resume_loop s (S i) todo' w'
      | None => None
      end
  end.

(** Second loop of [runOnce]:
    [for (size_t i = noEntries-1; i != 0; --i)
       if (coRoutines[i]->isSuspended()) removeCoRoutine( *coRoutines[i]);] *)
Fixpoint prune_loop (i : nat) (s : Scheduler) (w : World) : option Scheduler :=
  match i with
  | O => Some s
  | S i' =>
      match heap w !! load_ptr (coRoutines s) i with
      | Some c =>
          prune_loop i'
            (if isSuspended c then removeCoRoutine (load_ptr (coRoutines s) i) s else s)
            w
      | None => None
      end
  end.

(** [void Scheduler::runOnce(bool removeCompletedCoRoutines)] *)
Definition runOnce (removeCompletedCoRoutines : bool) (s : Scheduler) (w : World)
  : option (Scheduler * World) :=
  match resume_loop s 0 (noEntries s) w with
  | Some w' =>
      if negb (noEntries s =? 0)%nat && removeCompletedCoRoutines then
        match prune_loop (noEntries s - 1) s w' with
        | Some s' => Some (s', w')
        | None => None
        end
      else Some (s, w')
  | None => None
  end.

(** Registry operations issued by the application. *)
Inductive Op := Add (p : Z) | Remove (p : Z).

Definition apply_op (o : Op) (s : Scheduler) : Scheduler :=
  match o with
  | Add p => addCoRoutine p s
  | Remove p => removeCoRoutine p s
  end.

(** The operations of [ops], first to last, on [s]. *)
Definition run_ops (ops : list Op) (s : Scheduler) : Scheduler :=
  foldl (λ s o, apply_op o s) s ops.

(** The storage really has room for [arraySize] pointers, the entries fit,
    and the capacity is 0 or a power of two. *)
Definition registry_inv (s : Scheduler) : Prop :=
  length (coRoutines s) = (arraySize s * ptr_bytes)%nat ∧
  (noEntries s ≤ arraySize s)%nat ∧
  (arraySize s = 0%nat ∨ ∃ e : nat, arraySize s = (2 ^ e)%nat).

End Registry.


(** ** Sweeps observed from outside *)

Section Observation.
Context {pf : Platform}.

(** [resume()] on each pointer of [ps], first to last. *)
Fixpoint resume_each (ps : list Z) (w : World) : option World :=
  match ps with
  | [] => Some w
  | p :: ps' =>
      match resume_at p w with
      | Some w' => resume_each ps' w'
      | None => None
      end
  end.

(** [n] sweeps in a row; after each one, the [nextRun] and the number of
    worker invocations of the object at [p]. *)
Fixpoint sweep_trace (prune : bool) (p : Z) (n : nat) (s : Scheduler) (w : World)
  : list (option (Z * nat)) :=
  match n with
  | O => []
  | S n' =>
      match runOnce prune s w with
      | Some (s', w') =>
          ((λ c, (nextRun c, worker_calls c)) <$> heap w' !! p)
            :: sweep_trace prune p n' s' w'
      | None => [None]
      end
  end.




End Observation.

(** ** Concrete objects and runs on an AVR board *)

(** A fake clock whose successive readings are [ts]. *)
Definition fake_clock (ts : list Z) : Clock :=
  {| readings := λ i, nth i ts 0; reads := 0 |}.

Definition addr_A : Z := 256.   (* 0x0100 *)
Definition addr_T : Z := 512.   (* 0x0200 *)
Definition addr_B : Z := 772.   (* 0x0304 *)

(** A task whose worker always asks to run again in [d] ms. *)
Definition every (d : Z) : CoRoutine := CoRoutine_new (λ _, d) false.

(** A task whose worker asks to be suspended. *)
Definition one_shot : CoRoutine := CoRoutine_new (λ _, -1) false.


(** [every 100] after its first run at clock 0. *)
Definition every_100_scheduled : CoRoutine :=
  {| suspended := false; waitRelativeToWorkerExit := false; nextRun := 100;
     worker_returns := λ _, 100; worker_calls := 1 |}.

Definition world_of (objs : list (Z * CoRoutine)) (ts : list Z) : World :=
  {| heap := list_to_map objs; clock := fake_clock ts; resumed := [] |}.

(** The registry after [addCoRoutine] of each pointer of [ps] in turn. *)
Definition registry_of (uninit : nat → byte) (ps : list Z) : Scheduler :=
  run_ops (pf := avr) uninit (Add <$> ps) Scheduler_new.

(** Storage that [malloc] hands out filled with zero bytes. *)
Definition zero_filled : nat → byte := λ _, x00.

(** A task that waits relative to worker exit and asks for 20 ms. *)
Definition after_exit_20 : CoRoutine := CoRoutine_new (λ _, 20) true.

(** Two tasks with a 100 ms period, registered in the order A, B. *)
Definition two_periodic (ts : list Z) : World :=
  world_of [(addr_A, every 100); (addr_B, every 100)] ts.

(** Three live tasks: A and B periodic, T asking to be suspended on its
    first run. *)
Definition three_tasks (ts : list Z) : World :=
  world_of [(addr_A, every 100); (addr_T, one_shot); (addr_B, every 100)] ts.

(** Three tasks that all ask to be suspended on their first run. *)
Definition three_one_shots (ts : list Z) : World :=
  world_of [(addr_A, one_shot); (addr_T, one_shot); (addr_B, one_shot)] ts.

(** A task scheduled five periods of 16384 ms before [2^32]. *)
Definition late_in_the_epoch : CoRoutine :=
  {| suspended := false; waitRelativeToWorkerExit := false;
     nextRun := 4294885376;
     worker_returns := λ _, 16384; worker_calls := 7 |}.

(** ** The sketch around the scheduler *)

Section Sketch.
Context {pf : Platform}.
Variable uninit : nat → byte.

(** [n] passes of the sketch's [void loop() { scheduler.runOnce(); }]
    (the usage shown in [CoRoutines.h]); [runOnce] is called with its
    default argument [false]. *)
Fixpoint loop_n (n : nat) (s : Scheduler) (w : World) : option (Scheduler * World) :=
  match n with
  | O => Some (s, w)
  | S n' =>
      match runOnce false s w with
      | Some (s', w') => loop_n n' s' w'
      | None => None
      end
  end.

(** The largest number of entries the registry holds at any moment
    of the run of [ops] from [s]. *)
Fixpoint peak_entries (ops : list Op) (s : Scheduler) : nat :=
  match ops with
  | [] => noEntries s
  | o :: ops' => noEntries s `max` peak_entries ops' (apply_op uninit o s)
  end.

(** The scheduler [s] with its entry counter set to [n]. *)
Definition with_noEntries (n : nat) (s : Scheduler) : Scheduler :=
  {| coRoutines := coRoutines s; arraySize := arraySize s; noEntries := n |}.

(** The clock does not go back (and does not wrap around) between the
    next reading and reading number [m]. *)
Definition monotone_upto (k : Clock) (m : nat) : Prop :=
  ∀ i j, (reads k ≤ i)%nat → (i ≤ j)%nat → (j ≤ m)%nat →
         to_ulong (readings k i) ≤ to_ulong (readings k j).

(** What a sweep leaves behind: the world and the registry after
    [runOnce] (the ones before it, should the sweep be undefined). *)
Definition sweep_world (b : bool) (s : Scheduler) (w : World) : World :=
  match runOnce b s w with Some (_, w') => w' | None => w end.

Definition sweep_registry (b : bool) (s : Scheduler) (w : World) : Scheduler :=
  match runOnce b s w with Some (s', _) => s' | None => s end.

(** The world and the registry after [n] passes of the loop. *)
Definition loop_world (n : nat) (s : Scheduler) (w : World) : World :=
  match loop_n n s w with Some (_, w') => w' | None => w end.

Definition loop_registry (n : nat) (s : Scheduler) (w : World) : Scheduler :=
  match loop_n n s w with Some (s', _) => s' | None => s end.

End Sketch.

(** A task scheduled at 500 whose worker asks for 100 ms. *)
Definition waiting_until_500 : CoRoutine :=
  {| suspended := false; waitRelativeToWorkerExit := false; nextRun := 500;
     worker_returns := λ _, 100; worker_calls := 3 |}.

(** A suspended task. *)
Definition dormant_task : CoRoutine := suspend (every 100).

(** Two suspended tasks registered as A and B. *)
Definition two_dormant (ts : list Z) : World :=
  world_of [(addr_A, dormant_task); (addr_B, dormant_task)] ts.

(** A, B, T live; A periodic, B and T asking to be suspended on their
    first run. *)
Definition dormant_tail (ts : list Z) : World :=
  world_of [(addr_A, every 100); (addr_B, one_shot); (addr_T, one_shot)] ts.

(** A and B periodic and registered; T suspended earlier, then awakened. *)
Definition awakened_T (ts : list Z) : World :=
  world_of [(addr_A, every 100); (addr_B, every 100); (addr_T, awake dormant_task)] ts.

(** [one_shot] after its only run. *)
Definition one_shot_done : CoRoutine :=
  {| suspended := true; waitRelativeToWorkerExit := false; nextRun := 0;
     worker_returns := λ _, -1; worker_calls := 1 |}.

(** The registries used below. *)
Definition registry_AB : Scheduler := registry_of zero_filled [addr_A; addr_B].
Definition registry_ABT : Scheduler := registry_of zero_filled [addr_A; addr_B; addr_T].

(** * Properties of [CoRoutine] *)

Section TaskFacts.
Context {pf : Platform}.

Lemma ulong_modulus_pos : 0 < 2 ^ ulong_bits.
Proof. pose proof ulong_bits_min. apply Z.pow_pos_nonneg; lia. Qed.

Lemma to_ulong_range z : ulong_range (to_ulong z).
Proof. apply Z.mod_pos_bound, ulong_modulus_pos. Qed.

Lemma to_ulong_small z : ulong_range z → to_ulong z = z.
Proof. intros Hz. apply Z.mod_small, Hz. Qed.

Lemma ulong_add_int_mod t v : ulong_add_int t v = to_ulong (t + v).
Proof.
  unfold ulong_add_int, to_ulong.
  apply Zplus_mod_idemp_r.
Qed.

Lemma int_modulus_split : 2 ^ int_bits = 2 * 2 ^ (int_bits - 1).
Proof.
  pose proof int_bits_min.
  rewrite <- Z.pow_succ_r by lia. f_equal. lia.
Qed.


Lemma to_int_small v : int_range v → to_int v = v.
Proof.
  unfold int_range, to_int. intros Hv.
  rewrite Z.mod_small; [lia |].
  rewrite int_modulus_split. lia.
Qed.


Lemma resume_skip c k :
  due c k = false →
  resume c k = (c, {| readings := readings k; reads := S (reads k) |}).
Proof.
  unfold due, startOfRun_of, resume, millis. intros ->. reflexivity.
Qed.

Lemma resume_suspend c k :
  due c k = true → waitTime_of c = -1 →
  resume c k = (set_suspended true (snd (worker c)),
                {| readings := readings k; reads := S (reads k) |}).
Proof.
  unfold due, startOfRun_of, waitTime_of, resume, millis, worker.
  intros -> ->. reflexivity.
Qed.

Lemma resume_run c k :
  due c k = true → waitTime_of c ≠ -1 →
  resume c k =
    if waitRelativeToWorkerExit c then
      (set_nextRun (ulong_add_int (exitTime_of k) (waitTime_of c)) (snd (worker c)),
       {| readings := readings k; reads := S (S (reads k)) |})
    else
      (set_nextRun
         (ulong_add_int (if nextRun c =? 0 then startOfRun_of k else nextRun c)
                        (waitTime_of c))
         (snd (worker c)),
       {| readings := readings k; reads := S (reads k) |}).
Proof.
  unfold due, startOfRun_of, exitTime_of, waitTime_of, resume, millis, worker.
  intros -> Hne. apply Z.eqb_neq in Hne. rewrite Hne. simpl.
  destruct (waitRelativeToWorkerExit c); [reflexivity |].
  destruct (nextRun c =? 0); reflexivity.
Qed.

Lemma due_suspended c k : suspended c = true → due c k = false.
Proof. unfold due. intros ->. reflexivity. Qed.

Lemma due_first_run c k : suspended c = false → nextRun c = 0 → due c k = true.
Proof.
  unfold due. intros -> ->. simpl.
  apply Z.leb_le. apply to_ulong_range.
Qed.

Lemma suspend_is_dormant c : isSuspended (suspend c) = true.
Proof. reflexivity. Qed.

Lemma worker_suspend_is_dormant c k :
  due c k = true → waitTime_of c = -1 → isSuspended (fst (resume c k)) = true.
Proof. intros Hd Hw. rewrite resume_suspend by done. reflexivity. Qed.

Lemma awake_clears_dormancy c : isSuspended (awake c) = false.
Proof. unfold awake, isSuspended. destruct (suspended c) eqn:E; [reflexivity | exact E]. Qed.

End TaskFacts.

Section TaskClaims.
Context {pf : Platform}.

Lemma resume_n_dormant n : ∀ c k,
  suspended c = true →
  resume_n n c k = (c, {| readings := readings k; reads := reads k + n |}).
Proof.
  induction n as [|n IH]; intros c k Hs; simpl.
  - destruct k as [r i]; simpl. by rewrite Nat.add_0_r.
  - rewrite resume_skip by (by apply due_suspended).
    rewrite IH by done. simpl. do 2 f_equal. lia.
Qed.

(** C8. Once a task is dormant, any number of calls of [resume()], at
    whatever clock readings, leave the object exactly as it is: the worker
    is not invoked ([worker_calls] is the same) and no field changes; each
    call only consumes one clock reading.  Dormancy is entered by
    [suspend()] ([suspend_is_dormant]) or by the worker returning -1
    ([worker_suspend_is_dormant]) and left only by [awake()]
    ([awake_clears_dormancy]). *)
Theorem dormant_resume_is_noop (c : CoRoutine) (n : nat) (k : Clock) :
  isSuspended c = true →
  fst (resume_n n c k) = c ∧
  worker_calls (fst (resume_n n c k)) = worker_calls c ∧
  reads (snd (resume_n n c k)) = (reads k + n)%nat.
Proof.
  unfold isSuspended. intros Hs.
  rewrite resume_n_dormant by done. simpl. done.
Qed.

(** C7. On a dormant task [awake()] clears the flag and sets [nextRun]
    to 0; the next [resume()], whatever the clock reads, invokes the
    worker and treats the run as a first run: the worker's -1 suspends
    again, any other value is added to the reading taken at the start of
    that run (or to the reading taken after the worker, for a task that
    waits relative to worker exit).  On a task that is not dormant
    [awake()] changes nothing. *)
Theorem awake_forces_first_run (c : CoRoutine) (k : Clock) :
  if isSuspended c then
    isSuspended (awake c) = false ∧
    nextRun (awake c) = 0 ∧
    due (awake c) k = true ∧
    worker_calls (fst (resume (awake c) k)) = S (worker_calls c) ∧
    (if waitTime_of c =? -1 then
       isSuspended (fst (resume (awake c) k)) = true
     else
       isSuspended (fst (resume (awake c) k)) = false ∧
       nextRun (fst (resume (awake c) k)) =
         ulong_add_int
           (if waitRelativeToWorkerExit c then exitTime_of k else startOfRun_of k)
           (waitTime_of c))
  else awake c = c.
Proof.
  unfold isSuspended, awake.
  destruct (suspended c) eqn:Hs; [| reflexivity].
  set (c0 := set_suspended false (set_nextRun 0 c)).
  assert (due c0 k = true) as Hdue by (by apply due_first_run).
  assert (waitTime_of c0 = waitTime_of c) as Hw by reflexivity.
  repeat split; try done.
  - destruct (Z.eq_dec (waitTime_of c) (-1)) as [He|Hne].
    + rewrite resume_suspend by congruence. reflexivity.
    + rewrite resume_run by congruence.
      destruct (waitRelativeToWorkerExit c0); reflexivity.
  - destruct (waitTime_of c =? -1) eqn:He.
    + apply Z.eqb_eq in He. rewrite resume_suspend by congruence. reflexivity.
    + apply Z.eqb_neq in He. rewrite resume_run by congruence.
      change (waitRelativeToWorkerExit c0) with (waitRelativeToWorkerExit c).
      destruct (waitRelativeToWorkerExit c); simpl; rewrite Hw; done.
Qed.

(** C6, as the code has it.  A task that waits relative to worker exit:
    whenever [resume()] runs the worker and the worker returns [ms >= 0],
    [nextRun] becomes the clock reading taken after the worker returned
    plus [ms], the sum being formed in [unsigned long], that is modulo
    [2^ulong_bits]; it is that very integer whenever it is below
    [2^ulong_bits].  The reading after the worker is arbitrary with
    respect to the one before it, so this holds for every duration of the
    work unit. *)
Theorem relative_to_exit_next_run (c : CoRoutine) (k : Clock) :
  waitRelativeToWorkerExit c = true →
  due c k = true →
  0 ≤ waitTime_of c →
  nextRun (fst (resume c k)) = to_ulong (exitTime_of k + waitTime_of c) ∧
  (exitTime_of k + waitTime_of c < 2 ^ ulong_bits →
   nextRun (fst (resume c k)) = exitTime_of k + waitTime_of c).
Proof.
  intros Hpol Hdue Hms.
  rewrite resume_run by (done || lia). rewrite Hpol. simpl.
  rewrite ulong_add_int_mod. split; [done |].
  intros Hlt. apply to_ulong_small.
  pose proof (to_ulong_range (readings k (S (reads k)))) as Hr.
  unfold ulong_range, exitTime_of in *. lia.
Qed.


Lemma resume_run_nextRun c k :
  due c k = true → waitTime_of c ≠ -1 →
  nextRun (fst (resume c k)) = to_ulong (schedule_base c k + waitTime_of c) ∧
  suspended (fst (resume c k)) = false ∧
  worker_calls (fst (resume c k)) = S (worker_calls c) ∧
  worker_returns (fst (resume c k)) = worker_returns c ∧
  waitRelativeToWorkerExit (fst (resume c k)) = waitRelativeToWorkerExit c.
Proof.
  intros Hdue Hne. rewrite resume_run by done.
  assert (suspended c = false) as Hs.
  { unfold due in Hdue. destruct (suspended c); [discriminate | done]. }
  unfold schedule_base.
  destruct (waitRelativeToWorkerExit c) eqn:Hpol; simpl; rewrite ulong_add_int_mod; done.
Qed.


End TaskClaims.

Section ScheduleRelative.
Context {pf : Platform}.

Lemma to_ulong_add_l a b : to_ulong (to_ulong a + b) = to_ulong (a + b).
Proof. unfold to_ulong. apply Zplus_mod_idemp_l. Qed.

(** Every call of [resume()] that finds the task due invokes the worker:
    a call is successful exactly when [due] holds at its reading. *)
Lemma resume_due_calls c k :
  due c k = true → worker_calls (fst (resume c k)) = S (worker_calls c).
Proof.
  intros Hdue. destruct (Z.eq_dec (waitTime_of c) (-1)) as [He|Hne].
  - rewrite resume_suspend by done. reflexivity.
  - apply resume_run_nextRun; done.
Qed.

(** The number of worker invocations never goes down. *)
Lemma resume_n_calls_mono m : ∀ c k,
  (worker_calls c ≤ worker_calls (fst (resume_n m c k)))%nat.
Proof.
  induction m as [|m IH]; intros c k; simpl; [lia |].
  destruct (resume c k) as [c1 k1] eqn:E.
  specialize (IH c1 k1).
  destruct (due c k) eqn:Hdue.
  - pose proof (resume_due_calls c k Hdue) as Hc. rewrite E in Hc. simpl in Hc. lia.
  - rewrite resume_skip in E by done. inversion E; subst. done.
Qed.

(** Invariant of a run of [m] calls of [resume()] on a task that waits
    relative to its schedule and whose worker keeps returning [d]: with
    [N] the number of calls that ran the worker, [nextRun] has advanced
    by [N * d], as long as none of the [N] runs started from a scheduled
    time that is 0 modulo [2^ulong_bits]. *)
Lemma schedule_relative_accumulates d m : ∀ c k,
  waitRelativeToWorkerExit c = false →
  suspended c = false →
  ulong_range (nextRun c) →
  (∀ j, (worker_calls c ≤ j)%nat → worker_returns c j = d) →
  0 ≤ d → int_range d →
  (∀ j, (j < worker_calls (fst (resume_n m c k)) - worker_calls c)%nat →
        to_ulong (nextRun c + Z.of_nat j * d) ≠ 0) →
  nextRun (fst (resume_n m c k)) =
    to_ulong (nextRun c
              + Z.of_nat (worker_calls (fst (resume_n m c k)) - worker_calls c) * d).
Proof.
  induction m as [|m IH]; intros c k Hpol Hs Hr Hret Hd0 Hdr Hsent; simpl in *.
  - rewrite Nat.sub_diag. simpl.
    rewrite Z.add_0_r. symmetry. by apply to_ulong_small.
  - destruct (resume c k) as [c1 k1] eqn:E.
    pose proof (resume_n_calls_mono m c1 k1) as Hmono.
    destruct (due c k) eqn:Hdue.
    + assert (waitTime_of c = d) as Hw.
      { unfold waitTime_of. rewrite Hret by lia. by apply to_int_small. }
      assert (waitTime_of c ≠ -1) as Hne by lia.
      destruct (resume_run_nextRun c k Hdue Hne) as (Hn & Hs1 & Hc1 & Hret1 & Hpol1).
      rewrite E in Hn, Hs1, Hc1, Hret1, Hpol1. simpl in Hn, Hs1, Hc1, Hret1, Hpol1.
      assert (nextRun c ≠ 0) as Hnz.
      { intros Hz. apply (Hsent 0%nat); [lia |].
        rewrite Hz. reflexivity. }
      assert (schedule_base c k = nextRun c) as Hbase.
      { unfold schedule_base. rewrite Hpol.
        apply Z.eqb_neq in Hnz. by rewrite Hnz. }
      rewrite Hbase, Hw in Hn.
      rewrite (IH c1 k1).
      * rewrite Hn, to_ulong_add_l. f_equal.
        replace (worker_calls (fst (resume_n m c1 k1)) - worker_calls c)%nat
          with (S (worker_calls (fst (resume_n m c1 k1)) - worker_calls c1))%nat
          by lia.
        lia.
      * congruence.
      * done.
      * rewrite Hn. apply to_ulong_range.
      * intros j Hj. rewrite Hret1. apply Hret. lia.
      * done.
      * done.
      * intros j Hj. rewrite Hn, to_ulong_add_l.
        replace (nextRun c + d + Z.of_nat j * d)
          with (nextRun c + Z.of_nat (S j) * d) by lia.
        apply Hsent. lia.
    + rewrite resume_skip in E by done. inversion E; subst c1 k1.
      by apply IH.
Qed.

End ScheduleRelative.

(** * Concrete runs of [CoRoutine] *)

(** C1 fails as stated: a worker that returns 0, first resumed when the
    clock reads 0, is scheduled at 0; the next call of [resume()], at clock
    5, runs the worker again and finds [nextRun == 0], which the code takes
    for "never run": it schedules the task at 5, not at 0 + 1*0. *)
Lemma zero_schedule_is_reseeded :
  let r1 := resume (pf := avr) (every 0) (fake_clock [0; 5]) in
  let r2 := resume (pf := avr) (fst r1) (snd r1) in
  worker_calls (fst r1) = 1%nat ∧ nextRun (fst r1) = 0 ∧
  worker_calls (fst r2) = 2%nat ∧ nextRun (fst r2) = 5 ∧
  nextRun (fst r2) ≠ nextRun (fst r1) + 1 * 0.
Proof. vm_compute. repeat split; discriminate. Qed.

(** C1, as the code has it.  Take a task that waits relative to its
    schedule, is scheduled at [nextRun c], and whose worker returns the same
    [d >= 0] from now on.  After any [m] calls of [resume()], at arbitrary
    clock readings, of which [N] ran the worker, [nextRun] is
    [(nextRun c + N*d) mod 2^ulong_bits], hence exactly [nextRun c + N*d]
    while that is below [2^ulong_bits], provided none of the scheduled
    times [nextRun c + j*d], [j < N], from which those [N] runs started
    is 0 modulo [2^ulong_bits] (0 is the code's mark for "never run").
    Second part: the run of the specification, one task with [d = 100],
    sweeps at clock 0, 50, 100 and 250, gives [nextRun] 100, 100, 200, 300
    with 1, 1, 2, 3 worker invocations. *)
Theorem schedule_relative_no_drift :
  (∀ (pf : Platform) (c : CoRoutine) (k : Clock) (d : Z) (m : nat),
     waitRelativeToWorkerExit c = false →
     suspended c = false →
     ulong_range (nextRun c) →
     (∀ j, (worker_calls c ≤ j)%nat → worker_returns c j = d) →
     0 ≤ d → int_range d →
     (∀ j, (j < worker_calls (fst (resume_n m c k)) - worker_calls c)%nat →
           to_ulong (nextRun c + Z.of_nat j * d) ≠ 0) →
     let c' := fst (resume_n m c k) in
     let N := Z.of_nat (worker_calls c' - worker_calls c) in
     nextRun c' = to_ulong (nextRun c + N * d) ∧
     (nextRun c + N * d < 2 ^ ulong_bits → nextRun c' = nextRun c + N * d))
  ∧
  (∀ uninit : nat → byte,
     sweep_trace (pf := avr) false addr_A 4
       (registry_of uninit [addr_A])
       (world_of [(addr_A, every 100)] [0; 50; 100; 250])
     = [Some (100, 1%nat); Some (100, 1%nat); Some (200, 2%nat); Some (300, 3%nat)]).
Proof.
  split.
  - intros pf c k d m Hpol Hs Hr Hret Hd0 Hdr Hsent. simpl.
    pose proof (schedule_relative_accumulates d m c k Hpol Hs Hr Hret Hd0 Hdr Hsent)
      as Hnext.
    split; [done |].
    intros Hlt. rewrite Hnext. apply to_ulong_small.
    unfold ulong_range in *. split; [| done].
    apply Z.add_nonneg_nonneg; [lia |]. apply Z.mul_nonneg_nonneg; lia.
  - intros uninit. vm_compute. reflexivity.
Qed.

(** C1 at a concrete input: five calls of [resume()] of which two run
    the worker (at the readings 4294885411 and 4294901790); the schedule
    goes from 4294885376 to 4294918144 and no run starts from 0, although
    three more periods would wrap the schedule around to 0. *)
Lemma schedule_relative_no_drift_witness :
  nextRun (fst (resume_n (pf := avr) 5 late_in_the_epoch
                  (fake_clock [4294885000; 4294885411; 4294885500;
                               4294901790; 4294901800])))
  = 4294885376 + 2 * 16384.
Proof.
  refine (proj2 (proj1 schedule_relative_no_drift avr late_in_the_epoch
            (fake_clock [4294885000; 4294885411; 4294885500; 4294901790; 4294901800])
            16384 5%nat _ _ _ _ _ _ _) _).
  - reflexivity.
  - reflexivity.
  - vm_compute. split; [discriminate | reflexivity].
  - intros j Hj. reflexivity.
  - lia.
  - vm_compute. split; [discriminate | reflexivity].
  - intros j Hj.
    destruct j as [|[|j]]; [vm_compute; discriminate .. |].
    exfalso. vm_compute in Hj. lia.
  - vm_compute. reflexivity.
Defined.

(** C8 at a concrete input: a suspended task resumed five times. *)
Lemma dormant_resume_is_noop_witness :
  fst (resume_n (pf := avr) 5 (suspend (every 100)) (fake_clock [0; 100; 200; 300; 400]))
    = suspend (every 100) ∧
  worker_calls (fst (resume_n (pf := avr) 5 (suspend (every 100))
                       (fake_clock [0; 100; 200; 300; 400]))) = 0%nat ∧
  reads (snd (resume_n (pf := avr) 5 (suspend (every 100))
                (fake_clock [0; 100; 200; 300; 400]))) = 5%nat.
Proof.
  apply (dormant_resume_is_noop (pf := avr) (suspend (every 100)) 5
           (fake_clock [0; 100; 200; 300; 400])).
  reflexivity.
Defined.

(** C6 fails as stated: the worker of [after_exit_20] starts at clock
    4294967286 and returns at 4294967290, six ms before the clock wraps.
    [nextRun] becomes 14, not 4294967290 + 20, and the next [resume()],
    one ms later, runs the worker again. *)
Lemma exit_relative_sum_wraps :
  let r1 := resume (pf := avr) after_exit_20
              (fake_clock [4294967286; 4294967290; 4294967291; 4294967292]) in
  let r2 := resume (pf := avr) (fst r1) (snd r1) in
  worker_calls (fst r1) = 1%nat ∧
  exitTime_of (pf := avr) (fake_clock [4294967286; 4294967290; 4294967291; 4294967292])
    = 4294967290 ∧
  waitTime_of (pf := avr) after_exit_20 = 20 ∧
  nextRun (fst r1) = 14 ∧
  nextRun (fst r1) ≠ 4294967290 + 20 ∧
  startOfRun_of (pf := avr) (snd r1) = 4294967291 ∧
  worker_calls (fst r2) = 2%nat.
Proof. vm_compute. repeat split; discriminate. Qed.

(** C6 at a concrete input: started at clock 7, the worker returns at
    clock 50 and asks for 20 ms. *)
Lemma relative_to_exit_next_run_witness :
  nextRun (fst (resume (pf := avr) after_exit_20 (fake_clock [7; 50]))) = 70.
Proof.
  refine (proj2 (relative_to_exit_next_run (pf := avr) after_exit_20
                   (fake_clock [7; 50]) _ _ _) _).
  - reflexivity.
  - reflexivity.
  - vm_compute. discriminate.
  - vm_compute. reflexivity.
Defined.



(** * Properties of the raw memory operations *)

Section MemoryFacts.
Context {pf : Platform}.

Lemma Z_of_byte_of_Z z : Z_of_byte (byte_of_Z z) = z mod 256.
Proof.
  unfold Z_of_byte, byte_of_Z.
  pose proof (Z.mod_pos_bound z 256 eq_refl) as Hb.
  destruct (Byte.of_N (Z.to_N (z mod 256))) as [b|] eqn:E; simpl.
  - apply Byte.to_of_N in E. rewrite E. lia.
  - apply Byte.of_N_None_iff in E. lia.
Qed.

Lemma length_encode_ptr n : ∀ p, length (encode_ptr n p) = n.
Proof. induction n as [|n IH]; intros p; simpl; [done | by rewrite IH]. Qed.

(** Decoding the representation of a pointer gives the pointer back,
    up to the width of the representation. *)
Lemma decode_encode_ptr n : ∀ p,
  decode_ptr (encode_ptr n p) = p mod 256 ^ Z.of_nat n.
Proof.
  induction n as [|n IH]; intros p.
  - simpl. by rewrite Z.mod_1_r.
  - cbn [encode_ptr decode_ptr].
    rewrite Z_of_byte_of_Z, IH, Nat2Z.inj_succ, Z.pow_succ_r by lia.
    rewrite Z.rem_mul_r; [done | lia |].
    apply Z.pow_pos_nonneg; lia.
Qed.

Lemma lookup_write_bytes bs : ∀ mem off x,
  (off + length bs ≤ length mem)%nat →
  write_bytes mem off bs !! x =
    if decide (off ≤ x < off + length bs)%nat then bs !! (x - off)%nat else mem !! x.
Proof.
  induction bs as [|b bs IH]; intros mem off x Hlen; simpl in *.
  - case_decide; [lia | done].
  - rewrite IH by (rewrite length_insert; lia).
    destruct (decide (x = off)) as [->|Hne].
    + rewrite decide_False by lia. rewrite decide_True by lia.
      rewrite Nat.sub_diag. simpl. apply list_lookup_insert_eq. lia.
    + rewrite list_lookup_insert_ne by done.
      destruct (decide (S off ≤ x < S off + length bs)%nat).
      * rewrite decide_True by lia.
        replace (x - off)%nat with (S (x - S off)) by lia. done.
      * rewrite decide_False by lia. done.
Qed.

(** Entry [j] depends only on the [ptr_bytes] bytes at its place. *)
Lemma load_ptr_ext m1 m2 j :
  (∀ x, (j * ptr_bytes ≤ x < j * ptr_bytes + ptr_bytes)%nat → m1 !! x = m2 !! x) →
  load_ptr m1 j = load_ptr m2 j.
Proof.
  intros Hext. unfold load_ptr. f_equal.
  apply list_eq. intros i. rewrite !lookup_take, !lookup_drop.
  case_decide; [| done]. apply Hext. lia.
Qed.

Lemma load_store_same mem i p :
  (i * ptr_bytes + ptr_bytes ≤ length mem)%nat →
  load_ptr (store_ptr mem i p) i = p mod 256 ^ Z.of_nat ptr_bytes.
Proof.
  intros Hlen. unfold load_ptr, store_ptr.
  rewrite <- decode_encode_ptr. f_equal.
  apply list_eq. intros x. rewrite lookup_take, lookup_drop.
  case_decide.
  - rewrite lookup_write_bytes by (rewrite length_encode_ptr; lia).
    rewrite length_encode_ptr. rewrite decide_True by lia.
    f_equal. lia.
  - symmetry. apply lookup_ge_None_2. rewrite length_encode_ptr. lia.
Qed.

Lemma load_store_other mem i j p :
  i ≠ j →
  (i * ptr_bytes + ptr_bytes ≤ length mem)%nat →
  load_ptr (store_ptr mem i p) j = load_ptr mem j.
Proof.
  intros Hne Hlen. apply load_ptr_ext. intros x Hx. unfold store_ptr.
  rewrite lookup_write_bytes by (rewrite length_encode_ptr; lia).
  rewrite length_encode_ptr. rewrite decide_False; [done |].
  intros Hin. apply Hne.
  assert (i < j ∨ i = j ∨ j < i)%nat as [Hlt | [Heq | Hlt]] by lia; [| done |]; nia.
Qed.

(** [memcpy_within] writes at [d] and above only. *)
Lemma lookup_memcpy_within_below n : ∀ mem d s x,
  (x < d)%nat → memcpy_within mem d s n !! x = mem !! x.
Proof.
  induction n as [|n IH]; intros mem d s x Hx; simpl; [done |].
  destruct (mem !! s); [| done].
  rewrite IH by lia. apply list_lookup_insert_ne. lia.
Qed.

(** With the destination below the source and the source inside the
    block, the upward byte loop moves [n] bytes down unharmed, also when
    the two regions overlap. *)
Lemma lookup_memcpy_within n : ∀ mem d s x,
  (d < s)%nat → (s + n ≤ length mem)%nat →
  memcpy_within mem d s n !! x =
    if decide (d ≤ x < d + n)%nat then mem !! (x + (s - d))%nat else mem !! x.
Proof.
  induction n as [|n IH]; intros mem d s x Hds Hlen; simpl.
  - case_decide; [lia | done].
  - destruct (mem !! s) as [b|] eqn:Hb.
    2:{ apply lookup_ge_None_1 in Hb. lia. }
    rewrite IH by (rewrite ?length_insert; lia).
    destruct (decide (S d ≤ x < S d + n)%nat).
    + rewrite decide_True by lia.
      rewrite list_lookup_insert_ne by lia. f_equal; lia.
    + destruct (decide (x = d)) as [->|Hne].
      * rewrite decide_True by lia.
        rewrite list_lookup_insert_eq by lia.
        replace (d + (s - d))%nat with s by lia. done.
      * rewrite decide_False by lia.
        apply list_lookup_insert_ne. lia.
Qed.

End MemoryFacts.

(** * Properties of [Scheduler::runOnce] *)

Section SweepFacts.
Context {pf : Platform}.

(** A call of [resume()] reads the clock once, and a second time exactly
    when it ran the worker of a task that waits relative to worker exit
    and the worker did not ask to be suspended. *)
Lemma resume_reads c k :
  reads (snd (resume c k)) =
    (S (reads k) +
     if due c k && negb (waitTime_of c =? -1)%Z && waitRelativeToWorkerExit c
     then 1 else 0)%nat.
Proof.
  destruct (due c k) eqn:Hdue; simpl.
  - destruct (waitTime_of c =? -1) eqn:Hw; simpl.
    + apply Z.eqb_eq in Hw. rewrite resume_suspend by done. simpl. lia.
    + apply Z.eqb_neq in Hw. rewrite resume_run by done.
      destruct (waitRelativeToWorkerExit c); simpl; lia.
  - rewrite resume_skip by done. simpl. lia.
Qed.

Lemma resume_policy c k :
  waitRelativeToWorkerExit (fst (resume c k)) = waitRelativeToWorkerExit c.
Proof.
  destruct (due c k) eqn:Hdue.
  - destruct (Z.eq_dec (waitTime_of c) (-1)) as [Hw|Hw].
    + rewrite resume_suspend by done. reflexivity.
    + apply resume_run_nextRun; done.
  - rewrite resume_skip by done. reflexivity.
Qed.

Lemma resume_at_Some p c w :
  heap w !! p = Some c →
  resume_at p w =
    Some {| heap := <[p := fst (resume c (clock w))]> (heap w);
            clock := snd (resume c (clock w));
            resumed := resumed w ++ [(p, reads (clock w))] |}.
Proof.
  intros Hp. unfold resume_at. rewrite Hp.
  destruct (resume c (clock w)) as [c' k']. reflexivity.
Qed.

(** The first loop of [runOnce] visits the entries [i, i + todo) in
    array order. *)
Lemma resume_loop_each s todo : ∀ i w,
  resume_loop s i todo w =
  resume_each (map (load_ptr (coRoutines s)) (seq i todo)) w.
Proof.
  induction todo as [|todo IH]; intros i w; simpl; [reflexivity |].
  destruct (resume_at (load_ptr (coRoutines s) i) w); [apply IH | reflexivity].
Qed.

Lemma resume_each_spec ps : ∀ w,
  (∀ p, p ∈ ps → is_Some (heap w !! p)) →
  ∃ w' rs,
    resume_each ps w = Some w' ∧
    resumed w' = resumed w ++ zip ps rs ∧
    length rs = length ps ∧
    StronglySorted lt rs ∧
    Forall (λ r, reads (clock w) ≤ r < reads (clock w'))%nat rs ∧
    (reads (clock w) + length ps ≤ reads (clock w')
       ≤ reads (clock w) + 2 * length ps)%nat.
Proof.
  induction ps as [|p ps IH]; intros w Hlive.
  - exists w, []. simpl. rewrite app_nil_r.
    repeat split; try done; try lia. constructor.
  - destruct (Hlive p) as [c Hc]; [apply list_elem_of_here |].
    simpl. rewrite (resume_at_Some p c w Hc).
    set (w1 := {| heap := <[p := fst (resume c (clock w))]> (heap w);
                  clock := snd (resume c (clock w));
                  resumed := resumed w ++ [(p, reads (clock w))] |}).
    assert (S (reads (clock w)) ≤ reads (clock w1) ≤ S (S (reads (clock w))))%nat
      as Hreads.
    { simpl. rewrite resume_reads.
      destruct (due c (clock w) && negb (waitTime_of c =? -1)
                && waitRelativeToWorkerExit c); lia. }
    assert (resumed w1 = resumed w ++ [(p, reads (clock w))]) as Hlog1 by reflexivity.
    assert (∀ q, q ∈ ps → is_Some (heap w1 !! q)) as Hlive1.
    { intros q Hq. simpl.
      destruct (decide (p = q)) as [->|Hne].
      - rewrite lookup_insert_eq. by eexists.
      - rewrite lookup_insert_ne by done. apply Hlive. by apply list_elem_of_further. }
    clearbody w1.
    destruct (IH w1 Hlive1) as (w' & rs & Heach & Hlog & Hlen & Hsorted & Hall & Hcount).
    exists w', (reads (clock w) :: rs).
    split; [exact Heach |].
    split; [rewrite Hlog, Hlog1; simpl; by rewrite <- app_assoc |].
    split; [simpl; by rewrite Hlen |].
    split.
    { constructor; [done |].
      eapply Forall_impl; [exact Hall |]. cbv beta. intros r Hr. lia. }
    split.
    { constructor; [lia |].
      eapply Forall_impl; [exact Hall |]. cbv beta. intros r Hr. lia. }
    simpl. lia.
Qed.


Lemma length_entries s : length (entries s) = noEntries s.
Proof. unfold entries. by rewrite length_map, length_seq. Qed.

Lemma runOnce_no_prune s w :
  runOnce false s w = (λ w', (s, w')) <$> resume_each (entries s) w.
Proof.
  unfold runOnce, entries. rewrite resume_loop_each.
  destruct (resume_each _ w); simpl; [| reflexivity].
  by rewrite andb_false_r.
Qed.


End SweepFacts.



(** * Properties of the registry storage *)

Section RegistryFacts.
Context {pf : Platform}.
Variable uninit : nat → byte.

Lemma length_malloc n : length (malloc uninit n) = n.
Proof. unfold malloc. by rewrite length_map, length_seq. Qed.

Lemma length_write_bytes bs : ∀ mem off,
  length (write_bytes mem off bs) = length mem.
Proof.
  induction bs as [|b bs IH]; intros mem off; simpl; [done |].
  by rewrite IH, length_insert.
Qed.

Lemma length_memcpy_within n : ∀ mem d s,
  length (memcpy_within mem d s n) = length mem.
Proof.
  induction n as [|n IH]; intros mem d s; simpl; [done |].
  destruct (mem !! s); [| done]. by rewrite IH, length_insert.
Qed.

(** What [resize] does to the two counters. *)
Lemma resize_counters n s :
  arraySize (resize uninit n s) =
    (if (arraySize s <? n)%nat
     then (if (arraySize s =? 0)%nat then 1 else 2 * arraySize s)
     else arraySize s)%nat
  ∧ noEntries (resize uninit n s) = noEntries s.
Proof. unfold resize. destruct (arraySize s <? n)%nat; done. Qed.

Lemma resize_length n s :
  length (coRoutines s) = (arraySize s * ptr_bytes)%nat →
  length (coRoutines (resize uninit n s)) = (arraySize (resize uninit n s) * ptr_bytes)%nat.
Proof.
  intros Hlen. unfold resize.
  destruct (arraySize s <? n)%nat; [| done]. simpl.
  unfold memcpy.
  rewrite length_app, length_take, length_drop, length_malloc, Hlen.
  destruct (arraySize s =? 0)%nat eqn:E.
  - apply Nat.eqb_eq in E. rewrite E. simpl. lia.
  - lia.
Qed.

Lemma addCoRoutine_counters p s :
  (noEntries s ≤ arraySize s)%nat →
  noEntries (addCoRoutine uninit p s) = S (noEntries s) ∧
  arraySize (addCoRoutine uninit p s) =
    (if (noEntries s =? arraySize s)%nat
     then (if (arraySize s =? 0)%nat then 1 else 2 * arraySize s)
     else arraySize s)%nat.
Proof.
  intros Hle. unfold addCoRoutine. simpl.
  destruct (resize_counters (S (noEntries s))
              {| coRoutines := coRoutines s; arraySize := arraySize s;
                 noEntries := S (noEntries s) |}) as [Ha Hn].
  simpl in Ha, Hn. rewrite Ha, Hn. split; [done |].
  destruct (noEntries s =? arraySize s)%nat eqn:E.
  - apply Nat.eqb_eq in E.
    assert ((arraySize s <? S (noEntries s))%nat = true) as -> by (apply Nat.ltb_lt; lia).
    done.
  - apply Nat.eqb_neq in E.
    assert ((arraySize s <? S (noEntries s))%nat = false) as -> by (apply Nat.ltb_ge; lia).
    done.
Qed.

Lemma removeCoRoutine_counters p s :
  arraySize (removeCoRoutine p s) = arraySize s ∧
  (noEntries (removeCoRoutine p s) = noEntries s
   ∨ S (noEntries (removeCoRoutine p s)) = noEntries s) ∧
  length (coRoutines (removeCoRoutine p s)) = length (coRoutines s).
Proof.
  unfold removeCoRoutine.
  destruct (noEntries s =? 0)%nat eqn:E; [by auto |].
  apply Nat.eqb_neq in E.
  destruct (negb _); simpl; [| by auto].
  rewrite length_memcpy_within. split; [done |]. split; [right; lia | done].
Qed.

Lemma addCoRoutine_inv p s : registry_inv s → registry_inv (addCoRoutine uninit p s).
Proof.
  intros (Hlen & Hle & Hpow).
  destruct (addCoRoutine_counters p s Hle) as [Hn Ha].
  unfold registry_inv. rewrite Hn, Ha. split; [| split].
  - unfold addCoRoutine, store_ptr. simpl. rewrite length_write_bytes.
    rewrite resize_length by done.
    destruct (resize_counters (S (noEntries s))
                {| coRoutines := coRoutines s; arraySize := arraySize s;
                   noEntries := S (noEntries s) |}) as [Ha' _].
    rewrite Ha'. simpl.
    destruct (noEntries s =? arraySize s)%nat eqn:E.
    + apply Nat.eqb_eq in E.
      assert ((arraySize s <? S (noEntries s))%nat = true) as -> by (apply Nat.ltb_lt; lia).
      done.
    + apply Nat.eqb_neq in E.
      assert ((arraySize s <? S (noEntries s))%nat = false) as -> by (apply Nat.ltb_ge; lia).
      done.
  - destruct (noEntries s =? arraySize s)%nat eqn:E; [| apply Nat.eqb_neq in E; lia].
    apply Nat.eqb_eq in E.
    destruct (arraySize s =? 0)%nat eqn:E0; [apply Nat.eqb_eq in E0 | apply Nat.eqb_neq in E0]; lia.
  - destruct (noEntries s =? arraySize s)%nat; [| done].
    destruct (arraySize s =? 0)%nat eqn:E0.
    + right. by exists 0%nat.
    + apply Nat.eqb_neq in E0. destruct Hpow as [Hz | [e He]]; [done |].
      right. exists (S e). rewrite He. simpl. lia.
Qed.

Lemma removeCoRoutine_inv p s : registry_inv s → registry_inv (removeCoRoutine p s).
Proof.
  intros (Hlen & Hle & Hpow).
  destruct (removeCoRoutine_counters p s) as (Ha & Hn & Hl).
  unfold registry_inv. rewrite Ha, Hl. repeat split; try done. lia.
Qed.

Lemma apply_op_inv o s : registry_inv s → registry_inv (apply_op uninit o s).
Proof. destruct o; [apply addCoRoutine_inv | apply removeCoRoutine_inv]. Qed.

Lemma run_ops_inv ops : ∀ s, registry_inv s → registry_inv (run_ops uninit ops s).
Proof.
  induction ops as [|o ops IH]; intros s Hs; simpl; [done |].
  apply IH. by apply apply_op_inv.
Qed.

Lemma Scheduler_new_inv : registry_inv Scheduler_new.
Proof. unfold registry_inv. simpl. split; [done |]. split; [done |]. by left. Qed.

(** C9. After any sequence [ops] of [addCoRoutine] and [removeCoRoutine]
    calls on a new scheduler, and for any further call [o]: the capacity
    [arraySize] does not decrease; it either stays or becomes 1 (from 0) or
    twice what it was; it is 0 or a power of two; the number of entries is
    at most the capacity; and the allocated block holds exactly
    [arraySize] pointers. *)
Theorem capacity_only_doubles (ops : list Op) (o : Op) :
  let s := run_ops uninit ops Scheduler_new in
  let s' := apply_op uninit o s in
  (arraySize s ≤ arraySize s')%nat ∧
  (arraySize s' = arraySize s
   ∨ arraySize s' = (if (arraySize s =? 0)%nat then 1 else 2 * arraySize s)%nat) ∧
  (arraySize s = 0%nat ∨ ∃ e : nat, arraySize s = (2 ^ e)%nat) ∧
  (noEntries s ≤ arraySize s)%nat ∧
  (noEntries s' ≤ arraySize s')%nat ∧
  length (coRoutines s) = (arraySize s * ptr_bytes)%nat.
Proof.
  intros s s'.
  pose proof (run_ops_inv ops _ Scheduler_new_inv) as (Hlen & Hle & Hpow).
  fold s in Hlen, Hle, Hpow.
  pose proof (apply_op_inv o s (conj Hlen (conj Hle Hpow))) as (_ & Hle' & _).
  fold s' in Hle'.
  assert (arraySize s' = arraySize s
          ∨ arraySize s' = (if (arraySize s =? 0)%nat then 1 else 2 * arraySize s)%nat)
    as Hstep.
  { subst s'. destruct o as [p|p]; unfold apply_op.
    - destruct (addCoRoutine_counters p s Hle) as [_ Ha]. rewrite Ha.
      destruct (noEntries s =? arraySize s)%nat; auto.
    - left. apply removeCoRoutine_counters. }
  repeat split; try done.
  destruct Hstep as [-> | ->]; [lia |].
  destruct (arraySize s =? 0)%nat eqn:E; [apply Nat.eqb_eq in E |]; lia.
Qed.

End RegistryFacts.

(** * Removal on an AVR board: where the code departs from its comments *)

(** C4 at the failing input.  [removeCoRoutine] never compares entry 0:
    removing the only registered task, or a task registered first, leaves
    the scheduler exactly as it was. *)
Theorem remove_never_finds_entry_0 (uninit : nat → byte) :
  entries (pf := avr) (registry_of uninit [addr_T]) = [addr_T] ∧
  removeCoRoutine (pf := avr) addr_T (registry_of uninit [addr_T])
    = registry_of uninit [addr_T] ∧
  entries (pf := avr) (registry_of uninit [addr_T; addr_A]) = [addr_T; addr_A] ∧
  removeCoRoutine (pf := avr) addr_T (registry_of uninit [addr_T; addr_A])
    = registry_of uninit [addr_T; addr_A].
Proof. vm_compute. repeat split. Qed.

(** C3 at the failing input.  With A, T, B registered, removing T finds
    index 1 and hands [memcpy] the number of entries to move (1) as a
    number of bytes: one byte of B's two-byte pointer is copied.  The
    registry then holds A and the mixed pointer 516 (0x0204), an address
    of no task, and the next sweep dereferences it. *)
Theorem remove_moves_bytes_not_entries (uninit : nat → byte) :
  entries (pf := avr) (registry_of uninit [addr_A; addr_T; addr_B])
    = [addr_A; addr_T; addr_B] ∧
  entries (pf := avr)
    (removeCoRoutine (pf := avr) addr_T (registry_of uninit [addr_A; addr_T; addr_B]))
    = [addr_A; 516] ∧
  noEntries (removeCoRoutine (pf := avr) addr_T (registry_of uninit [addr_A; addr_T; addr_B]))
    = 2%nat ∧
  runOnce (pf := avr) false
    (removeCoRoutine (pf := avr) addr_T (registry_of uninit [addr_A; addr_T; addr_B]))
    (three_tasks [0; 0]) = None.
Proof. vm_compute. repeat split. Qed.

(** C2 at the failing input.  The pruning pass of [runOnce(true)] stops
    before index 0: a dormant task in the first slot stays registered,
    alone or with other dormant tasks behind it.  When the dormant task
    sits in the middle, the byte-count removal above also replaces the
    entry behind it by a pointer to no task. *)
Theorem prune_keeps_dormant_entry_0 (uninit : nat → byte) :
  match runOnce (pf := avr) true (registry_of uninit [addr_T]) (three_tasks [0]) with
  | Some (s', w') =>
      isSuspended <$> heap w' !! addr_T = Some true ∧
      entries (pf := avr) s' = [addr_T] ∧ noEntries s' = 1%nat
  | None => False
  end ∧
  match runOnce (pf := avr) true (registry_of uninit [addr_T; addr_A; addr_B])
          (three_one_shots [0; 0; 0]) with
  | Some (s', w') =>
      isSuspended <$> heap w' !! addr_T = Some true ∧
      isSuspended <$> heap w' !! addr_A = Some true ∧
      isSuspended <$> heap w' !! addr_B = Some true ∧
      entries (pf := avr) s' = [addr_T] ∧ noEntries s' = 1%nat
  | None => False
  end ∧
  match runOnce (pf := avr) true (registry_of uninit [addr_A; addr_T; addr_B])
          (three_tasks [0; 0; 0]) with
  | Some (s', w') =>
      isSuspended <$> heap w' !! addr_A = Some false ∧
      isSuspended <$> heap w' !! addr_T = Some true ∧
      isSuspended <$> heap w' !! addr_B = Some false ∧
      entries (pf := avr) s' = [addr_A; 516] ∧ noEntries s' = 2%nat
  | None => False
  end.
Proof. vm_compute. repeat split. Qed.

(** * What the registry holds after [addCoRoutine] and [removeCoRoutine] *)

Section RegistryContents.
Context {pf : Platform}.
Variable uninit : nat → byte.

(** [resize] keeps the bytes of the old block. *)
Lemma resize_lookup n s x :
  length (coRoutines s) = (arraySize s * ptr_bytes)%nat →
  (x < arraySize s * ptr_bytes)%nat →
  coRoutines (resize uninit n s) !! x = coRoutines s !! x.
Proof.
  intros Hlen Hx. unfold resize.
  destruct (arraySize s <? n)%nat; [| done]. simpl. unfold memcpy.
  rewrite lookup_app_l by (rewrite length_take; lia).
  apply lookup_take_lt. lia.
Qed.

Lemma addCoRoutine_entries p s :
  registry_inv s →
  0 ≤ p < 256 ^ Z.of_nat ptr_bytes →
  entries (addCoRoutine uninit p s) = entries s ++ [p].
Proof.
  intros Hinv Hp.
  pose proof (addCoRoutine_inv uninit p s Hinv) as (Hlen' & Hle' & _).
  destruct Hinv as (Hlen & Hle & Hpow).
  destruct (addCoRoutine_counters uninit p s Hle) as [Hn Ha].
  rewrite Hn in Hle'.
  unfold entries. rewrite Hn, seq_S, map_app, Nat.add_0_l. cbn [map].
  set (s1 := {| coRoutines := coRoutines s; arraySize := arraySize s;
                noEntries := S (noEntries s) |}).
  assert (coRoutines (addCoRoutine uninit p s)
          = store_ptr (coRoutines (resize uninit (S (noEntries s)) s1)) (noEntries s) p)
    as Hmem.
  { unfold addCoRoutine. fold s1. cbn [coRoutines noEntries].
    destruct (resize_counters uninit (noEntries s1) s1) as [_ ->].
    simpl. by rewrite Nat.sub_0_r. }
  assert (noEntries s * ptr_bytes + ptr_bytes
          ≤ length (coRoutines (resize uninit (S (noEntries s)) s1)))%nat as Hroom.
  { rewrite Hmem in Hlen'. unfold store_ptr in Hlen'.
    rewrite length_write_bytes in Hlen'. rewrite Hlen'. nia. }
  rewrite Hmem. f_equal.
  - apply map_ext_in. intros j Hj. apply in_seq in Hj.
    rewrite load_store_other by (done || lia).
    apply load_ptr_ext. intros x Hx.
    apply (resize_lookup (S (noEntries s)) s1 x); simpl; [done | nia].
  - rewrite load_store_same by done.
    f_equal. apply Z.mod_small. done.
Qed.

(** The scan of [removeCoRoutine] returns the largest index from [i]
    down to 1 that holds [p]. *)
Lemma find_from_Some mem p i f :
  find_from mem p i = Some f →
  (1 ≤ f ≤ i)%nat ∧ load_ptr mem f = p ∧
  ∀ j, (f < j ≤ i)%nat → load_ptr mem j ≠ p.
Proof.
  induction i as [|i IH]; simpl; [discriminate |].
  destruct (load_ptr mem (S i) =? p) eqn:E.
  - intros [= <-]. apply Z.eqb_eq in E.
    split; [lia |]. split; [done |]. intros j Hj. lia.
  - intros Hf. apply Z.eqb_neq in E.
    destruct (IH Hf) as (Hr & Hp & Habove).
    split; [lia |]. split; [done |].
    intros j Hj. destruct (decide (j = S i)) as [->|Hne]; [done |].
    apply Habove. lia.
Qed.

Lemma find_from_None mem p i :
  find_from mem p i = None ↔ ∀ j, (1 ≤ j ≤ i)%nat → load_ptr mem j ≠ p.
Proof.
  induction i as [|i IH]; simpl.
  - split; [intros _ j Hj; lia | done].
  - destruct (load_ptr mem (S i) =? p) eqn:E.
    + apply Z.eqb_eq in E. split; [discriminate |].
      intros H. exfalso. apply (H (S i)); [lia | done].
    + apply Z.eqb_neq in E. rewrite IH. split.
      * intros H j Hj. destruct (decide (j = S i)) as [->|Hne]; [done |].
        apply H. lia.
      * intros H j Hj. apply H. lia.
Qed.

(** The bytes [removeCoRoutine] reads lie inside the allocated block. *)
Lemma removeCoRoutine_reads_in_block s f :
  registry_inv s → (f < noEntries s)%nat →
  ((f + 1) * ptr_bytes + (noEntries s - (f + 1)) ≤ length (coRoutines s))%nat.
Proof.
  intros (Hlen & Hle & _) Hf. rewrite Hlen.
  pose proof ptr_bytes_pos. nia.
Qed.

Lemma removeCoRoutine_keeps_first p s :
  (1 ≤ noEntries s)%nat →
  (1 ≤ noEntries (removeCoRoutine p s))%nat ∧
  load_ptr (coRoutines (removeCoRoutine p s)) 0 = load_ptr (coRoutines s) 0.
Proof.
  intros Hn. unfold removeCoRoutine.
  destruct (noEntries s =? 0)%nat; [done |].
  destruct (find_from (coRoutines s) p (noEntries s - 1)) as [f|] eqn:Efind.
  - destruct (find_from_Some _ _ _ _ Efind) as (Hf & _ & _).
    assert ((f =? noEntries s)%nat = false) as -> by (apply Nat.eqb_neq; lia).
    simpl. split; [lia |].
    apply load_ptr_ext. intros x Hx.
    apply lookup_memcpy_within_below. nia.
  - by rewrite Nat.eqb_refl.
Qed.

Lemma prune_loop_keeps_first w i : ∀ s s',
  (1 ≤ noEntries s)%nat →
  prune_loop i s w = Some s' →
  (1 ≤ noEntries s')%nat ∧
  load_ptr (coRoutines s') 0 = load_ptr (coRoutines s) 0.
Proof.
  induction i as [|i IH]; intros s s' Hn; simpl.
  - by intros [= <-].
  - destruct (heap w !! load_ptr (coRoutines s) (S i)) as [c|]; [| discriminate].
    destruct (isSuspended c).
    + destruct (removeCoRoutine_keeps_first (load_ptr (coRoutines s) (S i)) s Hn)
        as [Hn1 Hfirst].
      intros Hp. destruct (IH _ _ Hn1 Hp) as [Hn' Hfirst'].
      split; [done | congruence].
    + by apply IH.
Qed.

(** The pointer registered first is never removed.  On a registry that
    is not empty, neither [removeCoRoutine], whatever its argument, nor a
    sweep with pruning, whatever the state of the tasks, takes the entry
    at index 0 out: afterwards the registry is not empty and still starts
    with the same pointer. *)
Lemma first_entry_is_never_removed (s : Scheduler) :
  (1 ≤ noEntries s)%nat →
  (∀ p, (1 ≤ noEntries (removeCoRoutine p s))%nat ∧
        entries (removeCoRoutine p s) !! 0%nat = entries s !! 0%nat) ∧
  (∀ w s' w', runOnce true s w = Some (s', w') →
        (1 ≤ noEntries s')%nat ∧ entries s' !! 0%nat = entries s !! 0%nat).
Proof.
  intros Hn.
  assert (∀ t, (1 ≤ noEntries t)%nat →
               entries t !! 0%nat = Some (load_ptr (coRoutines t) 0)) as Hhead.
  { intros t Ht. unfold entries. destruct (noEntries t); [lia | done]. }
  split.
  - intros p. destruct (removeCoRoutine_keeps_first p s Hn) as [Hn' Hfirst].
    split; [done |]. rewrite !Hhead by done. by rewrite Hfirst.
  - intros w s' w'. unfold runOnce.
    destruct (resume_loop s 0 (noEntries s) w) as [w1|]; [| discriminate].
    assert ((noEntries s =? 0)%nat = false) as -> by (apply Nat.eqb_neq; lia).
    simpl.
    destruct (prune_loop (noEntries s - 1) s w1) as [s1|] eqn:Hp; [| discriminate].
    intros [= <- <-].
    destruct (prune_loop_keeps_first _ _ _ _ Hn Hp) as [Hn' Hfirst].
    split; [done |]. rewrite !Hhead by done. by rewrite Hfirst.
Qed.

(** What [removeCoRoutine] does for every registry and every pointer.
    If [p] is held at no index from 1 upwards, the scheduler is returned
    unchanged (also when [p] sits at index 0).  Otherwise, with [f] the
    largest index holding [p]: the count drops by one, the capacity is
    kept, and the entries in front of [f] are untouched. *)
Lemma removeCoRoutine_scan p s :
  ((∀ j, (1 ≤ j < noEntries s)%nat → load_ptr (coRoutines s) j ≠ p) →
   removeCoRoutine p s = s) ∧
  (∀ f, (1 ≤ f < noEntries s)%nat →
        load_ptr (coRoutines s) f = p →
        (∀ j, (f < j < noEntries s)%nat → load_ptr (coRoutines s) j ≠ p) →
        noEntries (removeCoRoutine p s) = (noEntries s - 1)%nat ∧
        arraySize (removeCoRoutine p s) = arraySize s ∧
        take f (entries (removeCoRoutine p s)) = take f (entries s)).
Proof.
  split.
  - intros Hnone. unfold removeCoRoutine.
    destruct (noEntries s =? 0)%nat; [done |].
    assert (find_from (coRoutines s) p (noEntries s - 1) = None) as ->.
    { apply find_from_None. intros j Hj. apply Hnone. lia. }
    by rewrite Nat.eqb_refl.
  - intros f Hf Hp Habove. unfold removeCoRoutine.
    destruct (noEntries s =? 0)%nat eqn:E0; [apply Nat.eqb_eq in E0; lia |].
    destruct (find_from (coRoutines s) p (noEntries s - 1)) as [g|] eqn:Efind.
    + destruct (find_from_Some _ _ _ _ Efind) as (Hg & Hgp & Hgabove).
      assert (g = f) as ->.
      { destruct (decide (g < f)%nat); [exfalso; apply (Hgabove f); [lia | done] |].
        destruct (decide (f < g)%nat); [exfalso; apply (Habove g); [lia | done] |].
        lia. }
      assert ((f =? noEntries s)%nat = false) as -> by (apply Nat.eqb_neq; lia).
      simpl. split; [done |]. split; [done |].
      unfold entries. simpl.
      rewrite !firstn_map, !take_seq.
      rewrite !Nat.min_l by lia.
      apply map_ext_in. intros j Hj. apply in_seq in Hj.
      apply load_ptr_ext. intros x Hx.
      apply lookup_memcpy_within_below. nia.
    + exfalso. rewrite find_from_None in Efind.
      apply (Efind f); [lia | done].
Qed.

(** Adding pointers that fit the object representation of [CoRoutine*]
    appends them, in order. *)
Lemma run_adds_entries ps : ∀ s,
  registry_inv s →
  Forall (λ p, 0 ≤ p < 256 ^ Z.of_nat ptr_bytes) ps →
  registry_inv (run_ops uninit (Add <$> ps) s) ∧
  entries (run_ops uninit (Add <$> ps) s) = entries s ++ ps.
Proof.
  induction ps as [|p ps IH]; intros s Hinv Hps.
  - simpl. by rewrite app_nil_r.
  - inversion Hps as [|? ? Hp Hps']; subst.
    change (run_ops uninit (Add <$> p :: ps) s)
      with (run_ops uninit (Add <$> ps) (addCoRoutine uninit p s)).
    destruct (IH (addCoRoutine uninit p s)) as [Hinv' Hent].
    + by apply addCoRoutine_inv.
    + done.
    + split; [done |].
      rewrite Hent, addCoRoutine_entries by done. by rewrite <- app_assoc.
Qed.

(** X1. Registration order.  After [addCoRoutine] of the pointers [ps] to a
    new scheduler the registry holds exactly [ps], in that order, and one
    sweep without pruning, in a world where they all refer to live tasks,
    calls [resume()] on exactly [ps], first to last, each once. *)
Theorem adds_keep_registration_order (ps : list Z) (w : World) :
  Forall (λ p, 0 ≤ p < 256 ^ Z.of_nat ptr_bytes) ps →
  (∀ p, p ∈ ps → is_Some (heap w !! p)) →
  let s := run_ops uninit (Add <$> ps) Scheduler_new in
  entries s = ps ∧
  noEntries s = length ps ∧
  ∃ w' rs,
    runOnce false s w = Some (s, w') ∧
    map fst (drop (length (resumed w)) (resumed w')) = ps ∧
    resumed w' = resumed w ++ zip ps rs ∧
    length rs = length ps.
Proof.
  intros Hps Hlive s.
  destruct (run_adds_entries ps Scheduler_new (Scheduler_new_inv) Hps) as [_ Hent].
  change (entries Scheduler_new) with (@nil Z) in Hent. simpl in Hent.
  fold s in Hent.
  split; [done |].
  split; [by rewrite <- (length_entries s), Hent |].
  destruct (resume_each_spec ps w Hlive) as (w' & rs & Heach & Hlog & Hlen & _).
  exists w', rs.
  split; [by rewrite runOnce_no_prune, Hent, Heach |].
  split; [| done].
  rewrite Hlog, drop_app_length.
  clear -Hlen. revert rs Hlen.
  induction ps as [|p ps IH]; intros [|r rs] Hlen; simpl in *; try done.
  f_equal. apply IH. lia.
Qed.

(** X2. [removeCoRoutine] of a pointer that is not registered changes
    nothing. *)
Theorem removeCoRoutine_unregistered_is_noop (p : Z) (s : Scheduler) :
  p ∉ entries s → removeCoRoutine p s = s.
Proof.
  intros Hnot. apply removeCoRoutine_scan.
  intros j Hj Heq. apply Hnot.
  apply list_elem_of_In. unfold entries. rewrite <- Heq.
  apply in_map, in_seq. lia.
Qed.

(** X3. [removeCoRoutine] of a pointer held at an index from 1 upwards
    selects the largest such index [f]: one call lowers the count by
    exactly one, keeps the capacity and leaves the entries in front of
    [f] as they were; when [f] is the last index, the registry is the old
    one without its last entry. *)
Theorem removeCoRoutine_drops_last_match (p : Z) (s : Scheduler) (f : nat) :
  (1 ≤ f < noEntries s)%nat →
  load_ptr (coRoutines s) f = p →
  (∀ j, (f < j < noEntries s)%nat → load_ptr (coRoutines s) j ≠ p) →
  noEntries (removeCoRoutine p s) = (noEntries s - 1)%nat ∧
  arraySize (removeCoRoutine p s) = arraySize s ∧
  take f (entries (removeCoRoutine p s)) = take f (entries s) ∧
  (f = (noEntries s - 1)%nat → entries (removeCoRoutine p s) = take f (entries s)).
Proof.
  intros Hf Hp Habove.
  destruct (proj2 (removeCoRoutine_scan p s) f Hf Hp Habove) as (Hn & Ha & Htake).
  repeat split; try done.
  intros ->. rewrite <- Htake. symmetry. apply take_ge.
  rewrite length_entries. lia.
Qed.

(** X4. A task added twice and removed once: one occurrence is left, and a
    sweep calls its [resume()] once. *)
Theorem remove_one_of_two (p : Z) (c : CoRoutine) (w : World) :
  0 ≤ p < 256 ^ Z.of_nat ptr_bytes →
  heap w !! p = Some c →
  let s := removeCoRoutine p (run_ops uninit [Add p; Add p] Scheduler_new) in
  entries s = [p] ∧
  ∃ w', runOnce false s w = Some (s, w') ∧
        resumed w' = resumed w ++ [(p, reads (clock w))].
Proof.
  intros Hp Hc s.
  destruct (run_adds_entries [p; p] Scheduler_new Scheduler_new_inv) as [_ Hent].
  { repeat constructor; lia. }
  change (Add <$> [p; p]) with [Add p; Add p] in Hent.
  change (entries Scheduler_new ++ [p; p]) with [p; p] in Hent.
  set (s2 := run_ops uninit [Add p; Add p] Scheduler_new) in *.
  assert (noEntries s2 = 2%nat) as Hn2 by (by rewrite <- length_entries, Hent).
  assert (load_ptr (coRoutines s2) 1 = p) as Hload.
  { unfold entries in Hent. rewrite Hn2 in Hent. cbn [map seq] in Hent.
    by injection Hent as _ H1. }
  destruct (proj2 (removeCoRoutine_scan p s2) 1%nat) as (Hn & _ & Htake);
    [lia | done | intros j Hj; lia |].
  fold s in Hn, Htake. rewrite Hn2 in Hn. rewrite Hent in Htake. simpl in Htake.
  assert (entries s = [p]) as Hs.
  { rewrite <- Htake. symmetry. apply take_ge. rewrite length_entries. lia. }
  split; [done |].
  rewrite runOnce_no_prune, Hs. simpl.
  rewrite (resume_at_Some p c w Hc). simpl. eauto.
Qed.

End RegistryContents.

(** * The registry lemmas at concrete inputs (AVR) *)

Lemma adds_keep_registration_order_witness :
  entries (pf := avr) (run_ops (pf := avr) zero_filled (Add <$> [addr_A; addr_B]) Scheduler_new)
    = [addr_A; addr_B] ∧
  noEntries (run_ops (pf := avr) zero_filled (Add <$> [addr_A; addr_B]) Scheduler_new)
    = length [addr_A; addr_B] ∧
  ∃ w' rs,
    runOnce (pf := avr) false
      (run_ops (pf := avr) zero_filled (Add <$> [addr_A; addr_B]) Scheduler_new)
      (two_periodic [0; 0])
    = Some (run_ops (pf := avr) zero_filled (Add <$> [addr_A; addr_B]) Scheduler_new, w') ∧
    map fst (drop (length (resumed (two_periodic [0; 0]))) (resumed w')) = [addr_A; addr_B] ∧
    resumed w' = resumed (two_periodic [0; 0]) ++ zip [addr_A; addr_B] rs ∧
    length rs = length [addr_A; addr_B].
Proof.
  apply (adds_keep_registration_order (pf := avr) zero_filled
           [addr_A; addr_B] (two_periodic [0; 0])).
  - repeat constructor; vm_compute; discriminate.
  - intros p Hp.
    apply elem_of_cons in Hp as [-> | Hp]; [vm_compute; eauto |].
    apply list_elem_of_singleton in Hp as ->. vm_compute; eauto.
Defined.

Lemma removeCoRoutine_unregistered_is_noop_witness :
  removeCoRoutine (pf := avr) addr_B (registry_of zero_filled [addr_T; addr_A])
    = registry_of zero_filled [addr_T; addr_A].
Proof.
  apply (removeCoRoutine_unregistered_is_noop (pf := avr) addr_B
           (registry_of zero_filled [addr_T; addr_A])).
  change (entries (pf := avr) (registry_of zero_filled [addr_T; addr_A]))
    with [addr_T; addr_A].
  intros Hin.
  apply elem_of_cons in Hin as [Hin | Hin]; [discriminate |].
  apply list_elem_of_singleton in Hin. discriminate.
Defined.

Lemma removeCoRoutine_drops_last_match_witness :
  noEntries (removeCoRoutine (pf := avr) addr_T (registry_of zero_filled [addr_A; addr_T]))
    = 1%nat ∧
  entries (pf := avr)
    (removeCoRoutine (pf := avr) addr_T (registry_of zero_filled [addr_A; addr_T]))
    = [addr_A].
Proof.
  destruct (removeCoRoutine_drops_last_match (pf := avr) addr_T
              (registry_of zero_filled [addr_A; addr_T]) 1%nat)
    as (Hn & _ & _ & Hlast).
  - vm_compute. lia.
  - vm_compute. reflexivity.
  - intros j Hj. vm_compute in Hj. lia.
  - split; [exact Hn | apply Hlast; reflexivity].
Defined.

Lemma remove_one_of_two_witness :
  entries (pf := avr)
    (removeCoRoutine (pf := avr) addr_T
       (run_ops (pf := avr) zero_filled [Add addr_T; Add addr_T] Scheduler_new))
    = [addr_T] ∧
  ∃ w',
    runOnce (pf := avr) false
      (removeCoRoutine (pf := avr) addr_T
         (run_ops (pf := avr) zero_filled [Add addr_T; Add addr_T] Scheduler_new))
      (world_of [(addr_T, every 100)] [0])
    = Some (removeCoRoutine (pf := avr) addr_T
              (run_ops (pf := avr) zero_filled [Add addr_T; Add addr_T] Scheduler_new), w') ∧
    resumed w' = resumed (world_of [(addr_T, every 100)] [0])
                 ++ [(addr_T, reads (clock (world_of [(addr_T, every 100)] [0])))].
Proof.
  apply (remove_one_of_two (pf := avr) zero_filled addr_T (every 100)
           (world_of [(addr_T, every 100)] [0])).
  - vm_compute. split; [discriminate | reflexivity].
  - vm_compute. reflexivity.
Defined.

(** * More on [CoRoutine]: construction, polling, suspension *)

Section TaskMore.
Context {pf : Platform}.

(** The first run of a task that has never run: the worker is invoked
    whatever the clock reads. *)
Lemma first_run_effect c k :
  suspended c = false → nextRun c = 0 →
  worker_calls (fst (resume c k)) = S (worker_calls c) ∧
  (if waitTime_of c =? -1 then
     isSuspended (fst (resume c k)) = true
   else
     isSuspended (fst (resume c k)) = false ∧
     nextRun (fst (resume c k)) =
       ulong_add_int
         (if waitRelativeToWorkerExit c then exitTime_of k else startOfRun_of k)
         (waitTime_of c)).
Proof.
  intros Hs Hn.
  assert (due c k = true) as Hdue by (by apply due_first_run).
  split; [by apply resume_due_calls |].
  destruct (waitTime_of c =? -1) eqn:He.
  - apply Z.eqb_eq in He. rewrite resume_suspend by done. reflexivity.
  - apply Z.eqb_neq in He. rewrite resume_run by done.
    destruct (waitRelativeToWorkerExit c); simpl; rewrite ?Hn; simpl; done.
Qed.

(** X5. A task as its constructor leaves it is not suspended, and its
    first [resume()] invokes the worker whatever the clock reads (also at
    clock 0).  If the worker returns -1 the task is suspended; otherwise
    it is scheduled at the reading taken at the start of that run plus the
    returned delay (at the reading taken after the worker plus the delay,
    for a task that waits relative to worker exit). *)
Theorem new_task_runs_at_once (returns : nat → Z) (relativeToExit : bool) (k : Clock) :
  isSuspended (CoRoutine_new returns relativeToExit) = false ∧
  due (CoRoutine_new returns relativeToExit) k = true ∧
  worker_calls (fst (resume (CoRoutine_new returns relativeToExit) k)) = 1%nat ∧
  (if to_int (returns 0%nat) =? -1 then
     isSuspended (fst (resume (CoRoutine_new returns relativeToExit) k)) = true
   else
     isSuspended (fst (resume (CoRoutine_new returns relativeToExit) k)) = false ∧
     nextRun (fst (resume (CoRoutine_new returns relativeToExit) k)) =
       to_ulong ((if relativeToExit then exitTime_of k else startOfRun_of k)
                 + to_int (returns 0%nat))).
Proof.
  set (c := CoRoutine_new returns relativeToExit).
  destruct (first_run_effect c k eq_refl eq_refl) as [Hcalls Hrest].
  split; [reflexivity |]. split; [by apply due_first_run |].
  split; [exact Hcalls |].
  change (waitTime_of c) with (to_int (returns 0%nat)) in Hrest.
  change (waitRelativeToWorkerExit c) with relativeToExit in Hrest.
  destruct (to_int (returns 0%nat) =? -1); [done |].
  by rewrite <- ulong_add_int_mod.
Qed.

Lemma not_due_early c k :
  startOfRun_of k < nextRun c → due c k = false.
Proof.
  intros Hlt. unfold due.
  assert ((nextRun c <=? startOfRun_of k) = false) as -> by (apply Z.leb_gt; lia).
  apply andb_false_r.
Qed.

(** X6. Polling early is harmless.  While every reading taken is below
    [nextRun], any number of calls of [resume()] leave the object exactly
    as it is (the worker is not invoked, the schedule is not touched);
    each call consumes one clock reading. *)
Theorem early_resume_is_noop (n : nat) (c : CoRoutine) (k : Clock) :
  (∀ i, (i < n)%nat → to_ulong (readings k (reads k + i)) < nextRun c) →
  resume_n n c k = (c, {| readings := readings k; reads := reads k + n |}).
Proof.
  revert k. induction n as [|n IH]; intros k Hearly; simpl.
  - destruct k as [r i]. simpl. by rewrite Nat.add_0_r.
  - rewrite resume_skip.
    2:{ apply not_due_early. unfold startOfRun_of.
        specialize (Hearly 0%nat). rewrite Nat.add_0_r in Hearly. apply Hearly. lia. }
    rewrite IH; simpl.
    + do 2 f_equal. lia.
    + intros i Hi. rewrite <- Nat.add_succ_r. apply Hearly. lia.
Qed.

(** X7. What one call of [resume()] does to the object.  If the task is
    not due (suspended, or the reading is below [nextRun]) the object is
    unchanged.  If it is due the worker is invoked exactly once, and the
    task ends up suspended exactly when the worker returned -1.  In both
    cases the waiting policy and the worker itself are untouched, and the
    call takes one clock reading, or two when it ran the worker of a task
    that waits relative to worker exit and was not suspended by it. *)
Theorem resume_effect (c : CoRoutine) (k : Clock) :
  (if due c k then
     worker_calls (fst (resume c k)) = S (worker_calls c) ∧
     suspended (fst (resume c k)) = (waitTime_of c =? -1)
   else fst (resume c k) = c) ∧
  waitRelativeToWorkerExit (fst (resume c k)) = waitRelativeToWorkerExit c ∧
  worker_returns (fst (resume c k)) = worker_returns c ∧
  readings (snd (resume c k)) = readings k ∧
  reads (snd (resume c k)) =
    (S (reads k) +
     if due c k && negb (waitTime_of c =? -1)%Z && waitRelativeToWorkerExit c
     then 1 else 0)%nat.
Proof.
  split; [| split; [apply resume_policy | split; [| split; [| apply resume_reads]]]].
  - destruct (due c k) eqn:Hdue.
    + split; [by apply resume_due_calls |].
      destruct (waitTime_of c =? -1) eqn:He.
      * apply Z.eqb_eq in He. rewrite resume_suspend by done. reflexivity.
      * apply Z.eqb_neq in He. by apply resume_run_nextRun.
    + by rewrite resume_skip.
  - destruct (due c k) eqn:Hdue.
    + destruct (Z.eq_dec (waitTime_of c) (-1)) as [He|He].
      * rewrite resume_suspend by done. reflexivity.
      * by apply resume_run_nextRun.
    + by rewrite resume_skip.
  - destruct (due c k) eqn:Hdue.
    + destruct (Z.eq_dec (waitTime_of c) (-1)) as [He|He].
      * rewrite resume_suspend by done. reflexivity.
      * rewrite resume_run by done.
        destruct (waitRelativeToWorkerExit c); reflexivity.
    + by rewrite resume_skip.
Qed.

(** One call of [resume()] on a due task whose worker returns 0, under a
    clock that does not go back: the task is due again at the next
    reading. *)
Lemma zero_wait_step c k m :
  suspended c = false → 0 ≤ nextRun c → due c k = true →
  monotone_upto k m → (reads k + 2 ≤ m)%nat → waitTime_of c = 0 →
  suspended (fst (resume c k)) = false ∧
  0 ≤ nextRun (fst (resume c k)) ∧
  due (fst (resume c k)) (snd (resume c k)) = true ∧
  monotone_upto (snd (resume c k)) m ∧
  (reads (snd (resume c k)) ≤ reads k + 2)%nat ∧
  worker_calls (fst (resume c k)) = S (worker_calls c) ∧
  worker_returns (fst (resume c k)) = worker_returns c.
Proof.
  intros Hs Hn0 Hdue Hmono Hm Hw.
  assert (waitTime_of c ≠ -1) as Hne by lia.
  destruct (resume_run_nextRun c k Hdue Hne) as (Hn & Hs1 & Hc1 & Hr1 & _).
  assert (nextRun c ≤ startOfRun_of k) as Hle.
  { unfold due in Hdue. rewrite Hs in Hdue. simpl in Hdue. by apply Z.leb_le. }
  pose proof (to_ulong_range (readings k (reads k))) as Hrange.
  fold (startOfRun_of k) in Hrange. unfold ulong_range in Hrange.
  rewrite Hw, Z.add_0_r in Hn.
  split; [done |]. split; [rewrite Hn; apply to_ulong_range |].
  split; [| split; [| split; [| done]]].
  - unfold due. rewrite Hs1. simpl. apply Z.leb_le. rewrite Hn.
    rewrite resume_run by done. unfold schedule_base.
    destruct (waitRelativeToWorkerExit c); simpl.
    + unfold exitTime_of. rewrite to_ulong_small by apply to_ulong_range.
      unfold startOfRun_of. simpl. apply Hmono; lia.
    + unfold startOfRun_of at 2. simpl.
      transitivity (startOfRun_of k); [| apply Hmono; lia].
      destruct (nextRun c =? 0).
      * rewrite to_ulong_small by (unfold ulong_range; lia). lia.
      * rewrite to_ulong_small by (unfold ulong_range; lia). done.
  - intros i j Hi Hj Hjm. rewrite resume_run in * by done.
    destruct (waitRelativeToWorkerExit c); simpl in *; apply Hmono; lia.
  - rewrite resume_run by done.
    destruct (waitRelativeToWorkerExit c); simpl; lia.
Qed.

(** X8. "Return 0 to be invoked again as soon as possible": under a clock
    that does not go back during the calls, a task that is due and whose
    worker keeps returning 0 has its worker invoked by every single call
    of [resume()] ([n] calls take at most [2 * n] readings). *)
Theorem zero_wait_runs_every_resume (n : nat) (c : CoRoutine) (k : Clock) :
  suspended c = false →
  0 ≤ nextRun c →
  due c k = true →
  monotone_upto k (reads k + 2 * n) →
  (∀ j, (worker_calls c ≤ j)%nat → worker_returns c j = 0) →
  worker_calls (fst (resume_n n c k)) = (worker_calls c + n)%nat ∧
  isSuspended (fst (resume_n n c k)) = false.
Proof.
  remember (reads k + 2 * n)%nat as m eqn:Hm.
  assert (reads k + 2 * n ≤ m)%nat as Hwin by lia. clear Hm.
  revert c k Hwin. induction n as [|n IH]; intros c k Hwin Hs Hn0 Hdue Hmono Hret; simpl.
  - split; [lia | done].
  - assert (waitTime_of c = 0) as Hw.
    { unfold waitTime_of. rewrite Hret by lia. apply to_int_small.
      unfold int_range. pose proof int_bits_min.
      assert (0 < 2 ^ (int_bits - 1)) by (apply Z.pow_pos_nonneg; lia). lia. }
    destruct (zero_wait_step c k m Hs Hn0 Hdue Hmono) as
      (Hs1 & Hn1 & Hdue1 & Hmono1 & Hreads1 & Hc1 & Hr1); [lia | done |].
    destruct (resume c k) as [c1 k1]. simpl in *.
    destruct (IH c1 k1) as [Hcalls Hsusp]; try done.
    + lia.
    + intros j Hj. rewrite Hr1. apply Hret. lia.
    + split; [lia | done].
Qed.

(** X9. [suspend()] and [awake()] together.  Each is idempotent.
    [suspend()] keeps the pending [nextRun]; [awake()] on a suspended task
    discards it: after [suspend()] then [awake()], also on a task that was
    only waiting for its time, the task is not suspended, [nextRun] is 0
    and the next [resume()] runs the worker whatever the clock reads. *)
Theorem suspend_awake_resets_schedule (c : CoRoutine) (k : Clock) :
  suspend (suspend c) = suspend c ∧
  awake (awake c) = awake c ∧
  nextRun (suspend c) = nextRun c ∧
  isSuspended (awake (suspend c)) = false ∧
  nextRun (awake (suspend c)) = 0 ∧
  worker_calls (fst (resume (awake (suspend c)) k)) = S (worker_calls c) ∧
  worker_calls (fst (resume (suspend c) k)) = worker_calls c.
Proof.
  split; [reflexivity |].
  split.
  { unfold awake. destruct (suspended c) eqn:Hs; simpl; [reflexivity |]. by rewrite Hs. }
  split; [reflexivity |]. split; [reflexivity |]. split; [reflexivity |].
  split.
  - exact (proj1 (first_run_effect
                    (set_suspended false (set_nextRun 0 (suspend c))) k eq_refl eq_refl)).
  - rewrite resume_skip by (by apply due_suspended). reflexivity.
Qed.

End TaskMore.

Lemma early_resume_is_noop_witness :
  resume_n (pf := avr) 3 waiting_until_500 (fake_clock [100; 250; 499; 500])
  = (waiting_until_500,
     {| readings := readings (fake_clock [100; 250; 499; 500]); reads := 0 + 3 |}).
Proof.
  apply (early_resume_is_noop (pf := avr) 3 waiting_until_500
           (fake_clock [100; 250; 499; 500])).
  intros i Hi.
  destruct i as [|[|[|i]]]; [vm_compute; reflexivity .. | lia].
Defined.

Lemma zero_wait_runs_every_resume_witness :
  worker_calls (fst (resume_n (pf := avr) 2 (every 0) (fake_clock [3; 3; 8; 20; 20])))
    = (0 + 2)%nat ∧
  isSuspended (fst (resume_n (pf := avr) 2 (every 0) (fake_clock [3; 3; 8; 20; 20]))) = false.
Proof.
  apply (zero_wait_runs_every_resume (pf := avr) 2 (every 0)
           (fake_clock [3; 3; 8; 20; 20])).
  - reflexivity.
  - vm_compute. discriminate.
  - reflexivity.
  - intros i j Hi Hj Hjm. change (j ≤ 4)%nat in Hjm.
    destruct i as [|[|[|[|[|i]]]]]; destruct j as [|[|[|[|[|j]]]]];
      first [exfalso; lia | vm_compute; discriminate].
  - intros j Hj. reflexivity.
Defined.

(** * More on [Scheduler::runOnce]: what a sweep touches *)

Section SweepMore.
Context {pf : Platform}.

Lemma resume_at_inv p w w1 :
  resume_at p w = Some w1 →
  ∃ c, heap w !! p = Some c ∧
       w1 = {| heap := <[p := fst (resume c (clock w))]> (heap w);
               clock := snd (resume c (clock w));
               resumed := resumed w ++ [(p, reads (clock w))] |}.
Proof.
  intros Hr. destruct (heap w !! p) as [c|] eqn:Hc.
  - exists c. split; [done |]. rewrite (resume_at_Some p c w Hc) in Hr. congruence.
  - unfold resume_at in Hr. rewrite Hc in Hr. discriminate.
Qed.

Lemma resume_readings c k : readings (snd (resume c k)) = readings k.
Proof.
  destruct (due c k) eqn:Hdue.
  - destruct (Z.eq_dec (waitTime_of c) (-1)) as [He|He].
    + rewrite resume_suspend by done. reflexivity.
    + rewrite resume_run by done. destruct (waitRelativeToWorkerExit c); reflexivity.
  - by rewrite resume_skip.
Qed.

Lemma resume_calls_bound c k :
  (worker_calls c ≤ worker_calls (fst (resume c k)) ≤ S (worker_calls c))%nat.
Proof.
  destruct (due c k) eqn:Hdue.
  - rewrite resume_due_calls by done. lia.
  - rewrite resume_skip by done. simpl. lia.
Qed.

Lemma resume_each_frame ps : ∀ w w',
  resume_each ps w = Some w' →
  (∀ q, q ∉ ps → heap w' !! q = heap w !! q) ∧
  (∀ q, is_Some (heap w' !! q) ↔ is_Some (heap w !! q)) ∧
  readings (clock w') = readings (clock w).
Proof.
  induction ps as [|p ps IH]; intros w w' Heach; simpl in Heach.
  - inversion Heach; subst. done.
  - destruct (resume_at p w) as [w1|] eqn:Hat; [| discriminate].
    destruct (resume_at_inv p w w1 Hat) as (c & Hc & ->).
    destruct (IH _ _ Heach) as (Hother & Hdom & Hread). simpl in *.
    split; [| split].
    + intros q Hq. apply not_elem_of_cons in Hq as [Hne Hq].
      rewrite Hother by done. by apply lookup_insert_ne.
    + intros q. rewrite Hdom.
      destruct (decide (p = q)) as [->|Hne].
      * rewrite lookup_insert_eq, Hc. split; eauto.
      * by rewrite lookup_insert_ne.
    + by rewrite Hread, resume_readings.
Qed.

Lemma runOnce_world b s w s' w' :
  runOnce b s w = Some (s', w') → resume_each (entries s) w = Some w'.
Proof.
  unfold runOnce. rewrite resume_loop_each. fold (entries s).
  destruct (resume_each (entries s) w) as [w1|]; [| discriminate].
  destruct (negb (noEntries s =? 0)%nat && b).
  - destruct (prune_loop (noEntries s - 1) s w1); [| discriminate]. congruence.
  - congruence.
Qed.

(** X10. What a sweep leaves alone.  Whatever [runOnce] is called with,
    when it returns: every object that is not registered is exactly as it
    was; no object has appeared or disappeared; and the clock has only
    been read, never set. *)
Theorem sweep_touches_registered_tasks_only
    (b : bool) (s s' : Scheduler) (w w' : World) :
  runOnce b s w = Some (s', w') →
  (∀ q, q ∉ entries s → heap w' !! q = heap w !! q) ∧
  (∀ q, is_Some (heap w' !! q) ↔ is_Some (heap w !! q)) ∧
  readings (clock w') = readings (clock w).
Proof. intros Hrun. by apply (resume_each_frame (entries s)), (runOnce_world b s w s'). Qed.

Lemma resume_each_dormant ps : ∀ w,
  (∀ p, p ∈ ps → ∃ c, heap w !! p = Some c ∧ isSuspended c = true) →
  ∃ w', resume_each ps w = Some w' ∧
        heap w' = heap w ∧
        reads (clock w') = (reads (clock w) + length ps)%nat.
Proof.
  induction ps as [|p ps IH]; intros w Hdorm; simpl.
  - exists w. repeat split. lia.
  - destruct (Hdorm p) as (c & Hc & Hs); [apply list_elem_of_here |].
    rewrite (resume_at_Some p c w Hc).
    rewrite resume_skip by (by apply due_suspended). simpl.
    rewrite insert_id by done.
    destruct (IH {| heap := heap w;
                    clock := {| readings := readings (clock w);
                                reads := S (reads (clock w)) |};
                    resumed := resumed w ++ [(p, reads (clock w))] |})
      as (w' & Heach & Hheap & Hreads).
    { intros q Hq. simpl. apply Hdorm. by apply list_elem_of_further. }
    exists w'. simpl in *. split; [done |]. split; [done | lia].
Qed.

(** X11. A sweep over suspended tasks does no work: when every
    registered task is suspended, [runOnce()] invokes no worker and
    changes no object at all (the whole heap is as before); it only takes
    one clock reading per entry and leaves the registry as it is. *)
Theorem sweep_of_dormant_tasks_does_no_work (s : Scheduler) (w : World) :
  (∀ p, p ∈ entries s → ∃ c, heap w !! p = Some c ∧ isSuspended c = true) →
  ∃ w', runOnce false s w = Some (s, w') ∧
        heap w' = heap w ∧
        reads (clock w') = (reads (clock w) + noEntries s)%nat.
Proof.
  intros Hdorm.
  destruct (resume_each_dormant (entries s) w Hdorm) as (w' & Heach & Hheap & Hreads).
  exists w'. rewrite runOnce_no_prune, Heach, <- (length_entries s). done.
Qed.

Lemma prune_loop_counters w i : ∀ s s',
  prune_loop i s w = Some s' →
  arraySize s' = arraySize s ∧
  (noEntries s' ≤ noEntries s)%nat ∧
  length (coRoutines s') = length (coRoutines s).
Proof.
  induction i as [|i IH]; intros s s'; simpl.
  - intros [= <-]. done.
  - destruct (heap w !! load_ptr (coRoutines s) (S i)) as [c|]; [| discriminate].
    destruct (isSuspended c); [| apply IH].
    intros Hp. destruct (IH _ _ Hp) as (Ha & Hn & Hl).
    destruct (removeCoRoutine_counters (load_ptr (coRoutines s) (S i)) s)
      as (Ha1 & Hn1 & Hl1).
    split; [congruence |]. split; [lia | congruence].
Qed.

(** X12. Pruning acts on the registry only.  A sweep with pruning leaves
    the tasks and the clock exactly as the same sweep without pruning
    does (the second pass calls no [resume()], invokes no worker and
    reads no clock); in the registry it never adds an entry and never
    changes the capacity or the allocated block's size. *)
Theorem pruning_touches_registry_only (s s' : Scheduler) (w w' : World) :
  runOnce true s w = Some (s', w') →
  runOnce false s w = Some (s, w') ∧
  arraySize s' = arraySize s ∧
  (noEntries s' ≤ noEntries s)%nat ∧
  length (coRoutines s') = length (coRoutines s).
Proof.
  intros Hrun.
  pose proof (runOnce_world true s w s' w' Hrun) as Heach.
  split; [by rewrite runOnce_no_prune, Heach |].
  unfold runOnce in Hrun. rewrite resume_loop_each in Hrun. fold (entries s) in Hrun.
  rewrite Heach in Hrun.
  destruct (negb (noEntries s =? 0)%nat && true).
  - destruct (prune_loop (noEntries s - 1) s w') as [s1|] eqn:Hp; [| discriminate].
    injection Hrun as <-. exact (prune_loop_counters w' _ _ _ Hp).
  - injection Hrun as <-. done.
Qed.

Lemma resume_each_calls ps : ∀ w w',
  NoDup ps →
  resume_each ps w = Some w' →
  ∀ p c, heap w !! p = Some c →
  ∃ c', heap w' !! p = Some c' ∧
        (worker_calls c ≤ worker_calls c' ≤ S (worker_calls c))%nat.
Proof.
  induction ps as [|p0 ps IH]; intros w w' Hnd Heach p c Hp; simpl in Heach.
  - inversion Heach; subst. exists c. split; [done | lia].
  - apply NoDup_cons in Hnd as [Hnotin Hnd].
    destruct (resume_at p0 w) as [w1|] eqn:Hat; [| discriminate].
    destruct (resume_at_inv p0 w w1 Hat) as (c0 & Hc0 & ->).
    destruct (decide (p0 = p)) as [->|Hne].
    + destruct (resume_each_frame ps _ _ Heach) as (Hother & _ & _).
      exists (fst (resume c0 (clock w))).
      rewrite Hother by done. simpl. rewrite lookup_insert_eq.
      split; [done |].
      assert (c0 = c) as -> by congruence. apply resume_calls_bound.
    + apply (IH _ _ Hnd Heach p c). simpl. by rewrite lookup_insert_ne.
Qed.

(** X13. When no task is registered twice, one sweep invokes the worker
    of every task at most once: afterwards each object of the heap has
    seen zero or one more worker invocation than before. *)
Theorem sweep_invokes_each_worker_at_most_once
    (b : bool) (s s' : Scheduler) (w w' : World) (p : Z) (c : CoRoutine) :
  NoDup (entries s) →
  runOnce b s w = Some (s', w') →
  heap w !! p = Some c →
  ∃ c', heap w' !! p = Some c' ∧
        (worker_calls c ≤ worker_calls c' ≤ S (worker_calls c))%nat.
Proof.
  intros Hnd Hrun Hp.
  apply (resume_each_calls (entries s) w w' Hnd); [| done].
  by apply (runOnce_world b s w s').
Qed.

Lemma map_fst_zip (ps : list Z) : ∀ rs : list nat,
  length rs = length ps → map fst (zip ps rs) = ps.
Proof.
  induction ps as [|p ps IH]; intros [|r rs] Hlen; simpl in *; try done.
  f_equal. apply IH. lia.
Qed.

(** X14. The sketch's loop never gets stuck.  When every registered
    pointer refers to a live task, any number [n] of passes of
    [loop() { scheduler.runOnce(); }] complete; the registry is unchanged
    and the calls of [resume()] made are [n] rounds over the entries,
    each round in registration order. *)
Theorem loop_keeps_sweeping (n : nat) (s : Scheduler) (w : World) :
  (∀ p, p ∈ entries s → is_Some (heap w !! p)) →
  ∃ w' log,
    loop_n n s w = Some (s, w') ∧
    resumed w' = resumed w ++ log ∧
    map fst log = concat (replicate n (entries s)) ∧
    (∀ p, p ∈ entries s → is_Some (heap w' !! p)).
Proof.
  revert w. induction n as [|n IH]; intros w Hlive; simpl.
  - exists w, []. rewrite app_nil_r. done.
  - destruct (resume_each_spec (entries s) w Hlive)
      as (w1 & rs & Heach & Hlog & Hlen & _).
    rewrite runOnce_no_prune, Heach. simpl.
    destruct (resume_each_frame _ _ _ Heach) as (_ & Hdom & _).
    destruct (IH w1) as (w' & log & Hloop & Hlog' & Hmap & Hlive').
    { intros p Hp. apply Hdom. by apply Hlive. }
    exists w', (zip (entries s) rs ++ log).
    split; [done |]. split; [by rewrite Hlog', Hlog, <- app_assoc |].
    split; [| done].
    rewrite map_app, Hmap, map_fst_zip by done. done.
Qed.

End SweepMore.

(** * More on the registry: pruning, growth, round trips *)

Section RegistryMore.
Context {pf : Platform}.
Variable uninit : nat → byte.

Lemma entries_lookup s i :
  (i < noEntries s)%nat → entries s !! i = Some (load_ptr (coRoutines s) i).
Proof.
  intros Hi. unfold entries.
  change (map (load_ptr (coRoutines s)) (seq 0 (noEntries s)))
    with (load_ptr (coRoutines s) <$> seq 0 (noEntries s)).
  by rewrite list_lookup_fmap, lookup_seq_lt.
Qed.

Lemma entries_with_noEntries m s :
  (m ≤ noEntries s)%nat → entries (with_noEntries m s) = take m (entries s).
Proof.
  intros Hm. unfold entries, with_noEntries. simpl.
  by rewrite firstn_map, take_seq, Nat.min_l.
Qed.

(** Removing the pointer held by the last entry, when that is not entry
    0, just lowers the entry counter. *)
Lemma removeCoRoutine_last s i :
  noEntries s = S i → (1 ≤ i)%nat →
  removeCoRoutine (load_ptr (coRoutines s) i) s = with_noEntries i s.
Proof.
  intros Hn Hi. destruct i as [|i]; [lia |].
  unfold removeCoRoutine, with_noEntries. rewrite Hn.
  change (S (S i) =? 0)%nat with false.
  change (S (S i) - 1)%nat with (S i).
  cbn [find_from]. rewrite Z.eqb_refl.
  assert ((S i =? S (S i))%nat = false) as -> by (apply Nat.eqb_neq; lia).
  cbn [negb].
  replace (S (S i) - (S i + 1))%nat with 0%nat by lia.
  reflexivity.
Qed.

Lemma prune_loop_awake w i : ∀ s,
  (∀ j, (1 ≤ j ≤ i)%nat →
        ∃ c, heap w !! load_ptr (coRoutines s) j = Some c ∧ isSuspended c = false) →
  prune_loop i s w = Some s.
Proof.
  induction i as [|i IH]; intros s Hawake; simpl; [done |].
  destruct (Hawake (S i)) as (c & -> & ->); [lia |].
  apply IH. intros j Hj. apply Hawake. lia.
Qed.

Lemma prune_loop_tail w s m : ∀ i,
  (1 ≤ m)%nat → (m ≤ S i)%nat →
  (∀ j, (m ≤ j ≤ i)%nat →
        ∃ c, heap w !! load_ptr (coRoutines s) j = Some c ∧ isSuspended c = true) →
  (∀ j, (1 ≤ j < m)%nat →
        ∃ c, heap w !! load_ptr (coRoutines s) j = Some c ∧ isSuspended c = false) →
  prune_loop i (with_noEntries (S i) s) w = Some (with_noEntries m s).
Proof.
  induction i as [|i IH]; intros Hm1 Hmi Hdorm Hawake.
  - simpl. assert (m = 1%nat) as -> by lia. done.
  - destruct (decide (m = S (S i))) as [->|Hne].
    + apply prune_loop_awake. intros j Hj. simpl. apply Hawake. lia.
    + cbn [prune_loop].
      change (coRoutines (with_noEntries (S (S i)) s)) with (coRoutines s).
      destruct (Hdorm (S i)) as (c & -> & ->); [lia |].
      change (load_ptr (coRoutines s) (S i))
        with (load_ptr (coRoutines (with_noEntries (S (S i)) s)) (S i)).
      rewrite removeCoRoutine_last by (simpl; lia).
      change (with_noEntries (S i) (with_noEntries (S (S i)) s))
        with (with_noEntries (S i) s).
      apply IH; try lia.
      * intros j Hj. apply Hdorm. lia.
      * done.
Qed.

(** The second pass of [runOnce(true)] over a registry whose suspended
    tasks form its tail. *)
Lemma runOnce_prune_tail (s : Scheduler) (w w' : World) (m : nat) :
  runOnce false s w = Some (s, w') →
  (1 ≤ m ≤ noEntries s)%nat →
  (∀ i p, (m ≤ i)%nat → entries s !! i = Some p →
          ∃ c, heap w' !! p = Some c ∧ isSuspended c = true) →
  (∀ i p, (1 ≤ i < m)%nat → entries s !! i = Some p →
          ∃ c, heap w' !! p = Some c ∧ isSuspended c = false) →
  runOnce true s w = Some (with_noEntries m s, w').
Proof.
  intros Hrun Hm Hdorm Hawake.
  rewrite runOnce_no_prune in Hrun.
  destruct (resume_each (entries s) w) as [w1|] eqn:Heach; [| discriminate].
  injection Hrun as ->.
  unfold runOnce. rewrite resume_loop_each. fold (entries s). rewrite Heach.
  assert ((noEntries s =? 0)%nat = false) as -> by (apply Nat.eqb_neq; lia).
  simpl.
  destruct (noEntries s) as [|n] eqn:Hn; [lia |].
  change (S n - 1)%nat with (n - 0)%nat. rewrite Nat.sub_0_r.
  assert (s = with_noEntries (S n) s) as Hs.
  { destruct s. unfold with_noEntries. simpl in *. by rewrite Hn. }
  rewrite Hs at 1.
  rewrite (prune_loop_tail w' s m n); [done | lia | lia | |].
  - intros j Hj. apply (Hdorm j); [lia |]. apply entries_lookup. lia.
  - intros j Hj. apply (Hawake j); [lia |]. apply entries_lookup. lia.
Qed.

(** X15. Pruning a dormant tail.  Let the tasks of the entries from
    index [m >= 1] to the end be suspended after the first pass of a
    sweep, and those of the entries 1 to [m - 1] not suspended.  Then
    [runOnce(true)] removes exactly that tail: the registry keeps its
    first [m] entries, in order, and its storage and capacity; tasks and
    clock are as after the sweep without pruning. *)
Theorem prune_removes_dormant_tail (s : Scheduler) (w w' : World) (m : nat) :
  runOnce false s w = Some (s, w') →
  (1 ≤ m ≤ noEntries s)%nat →
  (∀ i p, (m ≤ i)%nat → entries s !! i = Some p →
          ∃ c, heap w' !! p = Some c ∧ isSuspended c = true) →
  (∀ i p, (1 ≤ i < m)%nat → entries s !! i = Some p →
          ∃ c, heap w' !! p = Some c ∧ isSuspended c = false) →
  ∃ s', runOnce true s w = Some (s', w') ∧
        entries s' = take m (entries s) ∧
        noEntries s' = m ∧
        arraySize s' = arraySize s ∧
        coRoutines s' = coRoutines s.
Proof.
  intros Hrun Hm Hdorm Hawake.
  exists (with_noEntries m s).
  split; [by apply runOnce_prune_tail |].
  split; [apply entries_with_noEntries; lia | done].
Qed.

(** X16. Registering a task and removing it again, on a registry that
    already holds at least one entry, gives back the same entries in the
    same order (the capacity may have grown meanwhile). *)
Theorem add_then_remove_restores_entries (p : Z) (s : Scheduler) :
  registry_inv s →
  (1 ≤ noEntries s)%nat →
  0 ≤ p < 256 ^ Z.of_nat ptr_bytes →
  entries (removeCoRoutine p (addCoRoutine uninit p s)) = entries s ∧
  noEntries (removeCoRoutine p (addCoRoutine uninit p s)) = noEntries s ∧
  (arraySize s ≤ arraySize (removeCoRoutine p (addCoRoutine uninit p s)))%nat.
Proof.
  intros Hinv Hn Hp.
  pose proof (addCoRoutine_entries uninit p s Hinv Hp) as Hent.
  destruct Hinv as (Hlen & Hle & Hpow).
  destruct (addCoRoutine_counters uninit p s Hle) as [Hn1 Ha1].
  set (s1 := addCoRoutine uninit p s) in *.
  assert (load_ptr (coRoutines s1) (noEntries s) = p) as Hload.
  { assert (noEntries s < noEntries s1)%nat as Hlt by lia.
    pose proof (entries_lookup s1 (noEntries s) Hlt) as Hl.
    rewrite Hent in Hl.
    rewrite lookup_app_r in Hl by (rewrite length_entries; lia).
    rewrite length_entries, Nat.sub_diag in Hl.
    cbn [lookup list_lookup] in Hl. congruence. }
  destruct (proj2 (removeCoRoutine_scan p s1) (noEntries s)) as (Hn2 & Ha2 & Htake);
    [lia | done | intros j Hj; lia |].
  rewrite Hn1 in Hn2. simpl in Hn2. rewrite Nat.sub_0_r in Hn2.
  split; [| split; [done |]].
  - rewrite <- (take_ge (entries (removeCoRoutine p s1)) (noEntries s))
      by (rewrite length_entries; lia).
    rewrite Htake, Hent, take_app_length'; [done | by rewrite length_entries].
  - rewrite Ha2, Ha1.
    destruct (noEntries s =? arraySize s)%nat; [| done].
    destruct (arraySize s =? 0)%nat eqn:E; [apply Nat.eqb_eq in E |]; lia.
Qed.

Lemma peak_entries_ge ops : ∀ s, (noEntries s ≤ peak_entries uninit ops s)%nat.
Proof. destruct ops; intros s; simpl; lia. Qed.

Lemma run_ops_peak ops : ∀ s bound,
  registry_inv s →
  (arraySize s = 0 ∨ arraySize s < 2 * bound)%nat →
  (arraySize (run_ops uninit ops s) = 0
   ∨ arraySize (run_ops uninit ops s) < 2 * (bound `max` peak_entries uninit ops s))%nat.
Proof.
  induction ops as [|o ops IH]; intros s bound Hinv Hb; simpl.
  - lia.
  - pose proof (apply_op_inv uninit o s Hinv) as Hinv1.
    destruct (IH (apply_op uninit o s) (bound `max` noEntries (apply_op uninit o s))%nat Hinv1)
      as [Hz | Hlt].
    + destruct Hinv as (_ & Hle & _).
      destruct o as [p|p]; unfold apply_op.
      * destruct (addCoRoutine_counters uninit p s Hle) as [Hn Ha]. rewrite Hn, Ha.
        destruct (noEntries s =? arraySize s)%nat eqn:E; [| lia].
        apply Nat.eqb_eq in E.
        destruct (arraySize s =? 0)%nat eqn:E0; [apply Nat.eqb_eq in E0 | apply Nat.eqb_neq in E0]; lia.
      * destruct (removeCoRoutine_counters p s) as (Ha & _ & _). rewrite Ha. lia.
    + by left.
    + right. pose proof (peak_entries_ge ops (apply_op uninit o s)). lia.
Qed.

(** X17. Memory bound.  After any sequence of [addCoRoutine] and
    [removeCoRoutine] calls on a new scheduler the capacity is 0 (when
    nothing was ever added) or less than twice the largest number of
    entries the registry held at any moment of the run. *)
Theorem capacity_below_twice_the_peak (ops : list Op) :
  (arraySize (run_ops uninit ops Scheduler_new) = 0
   ∧ peak_entries uninit ops Scheduler_new = 0
   ∨ arraySize (run_ops uninit ops Scheduler_new)
       < 2 * peak_entries uninit ops Scheduler_new)%nat.
Proof.
  destruct (run_ops_peak ops Scheduler_new 0 Scheduler_new_inv) as [Hz | Hlt].
  - by left.
  - destruct (peak_entries uninit ops Scheduler_new) as [|pk]; [by left |].
    right. rewrite Hz. lia.
  - right. rewrite Nat.max_0_l in Hlt. done.
Qed.


(** X19. "Do not add the same co-routine twice or it will be invoked two
    times per run": after registering the same task twice, one sweep calls
    its [resume()] twice in a row, on the same object: the object and the
    clock end up as after two consecutive calls of [resume()]. *)
Theorem task_added_twice_is_resumed_twice (p : Z) (c : CoRoutine) (w : World) :
  0 ≤ p < 256 ^ Z.of_nat ptr_bytes →
  heap w !! p = Some c →
  let s := run_ops uninit [Add p; Add p] Scheduler_new in
  entries s = [p; p] ∧
  ∃ w', runOnce false s w = Some (s, w') ∧
        heap w' !! p = Some (fst (resume_n 2 c (clock w))) ∧
        clock w' = snd (resume_n 2 c (clock w)) ∧
        map fst (drop (length (resumed w)) (resumed w')) = [p; p].
Proof.
  intros Hp Hc s.
  destruct (run_adds_entries uninit [p; p] Scheduler_new Scheduler_new_inv) as [_ Hent].
  { repeat constructor; lia. }
  change (Add <$> [p; p]) with [Add p; Add p] in Hent.
  change (entries Scheduler_new ++ [p; p]) with [p; p] in Hent.
  fold s in Hent. split; [done |].
  rewrite runOnce_no_prune, Hent. cbn [resume_each].
  rewrite (resume_at_Some p c w Hc).
  set (w1 := {| heap := <[p := fst (resume c (clock w))]> (heap w);
                clock := snd (resume c (clock w));
                resumed := resumed w ++ [(p, reads (clock w))] |}).
  rewrite (resume_at_Some p (fst (resume c (clock w))) w1)
    by (simpl; apply lookup_insert_eq).
  simpl. eexists. split; [reflexivity |]. simpl.
  destruct (resume c (clock w)) as [c1 k1]. simpl.
  destruct (resume c1 k1) as [c2 k2]. simpl.
  split; [apply lookup_insert_eq |]. split; [done |].
  rewrite <- app_assoc, drop_app_length. done.
Qed.

End RegistryMore.

(** * Sweeps, pruning and registration together *)

Section Together.
Context {pf : Platform}.
Variable uninit : nat → byte.

Lemma loop_n_frame n : ∀ s w s' w',
  loop_n n s w = Some (s', w') →
  s' = s ∧ ∀ q, q ∉ entries s → heap w' !! q = heap w !! q.
Proof.
  induction n as [|n IH]; intros s w s' w'; simpl.
  - intros [= <- <-]. done.
  - rewrite runOnce_no_prune.
    destruct (resume_each (entries s) w) as [w1|] eqn:Heach; [| discriminate].
    simpl. intros Hloop. destruct (IH _ _ _ _ Hloop) as [-> Hother].
    split; [done |]. intros q Hq. rewrite Hother by done.
    by apply (resume_each_frame (entries s) w w1 Heach).
Qed.

(** X20. A pruned task is left alone.  Under the conditions of the
    dormant-tail pruning (the tasks of the entries from index [m >= 1] on
    are suspended after the first pass, those of entries 1 to [m - 1] are
    not), a task [q] of the tail that is not also registered among the
    first [m] entries is, after [runOnce(true)] and any number of further
    sweeps, exactly as the pruning sweep left it: still suspended, its
    worker never invoked again, however far the clock advances. *)
Theorem pruned_task_is_left_alone
    (s s2 : Scheduler) (w w' w2 : World) (m n : nat) (q : Z) (c : CoRoutine) :
  runOnce false s w = Some (s, w') →
  (1 ≤ m ≤ noEntries s)%nat →
  (∀ i p, (m ≤ i)%nat → entries s !! i = Some p →
          ∃ c, heap w' !! p = Some c ∧ isSuspended c = true) →
  (∀ i p, (1 ≤ i < m)%nat → entries s !! i = Some p →
          ∃ c, heap w' !! p = Some c ∧ isSuspended c = false) →
  q ∉ take m (entries s) →
  heap w' !! q = Some c →
  loop_n n (sweep_registry true s w) (sweep_world true s w) = Some (s2, w2) →
  entries s2 = take m (entries s) ∧
  heap w2 !! q = Some c.
Proof.
  intros Hrun Hm Hdorm Hawake Hq Hc Hloop.
  pose proof (runOnce_prune_tail s w w' m Hrun Hm Hdorm Hawake) as Hprune.
  unfold sweep_registry, sweep_world in Hloop. rewrite Hprune in Hloop.
  destruct (loop_n_frame n _ _ _ _ Hloop) as [-> Hother].
  rewrite entries_with_noEntries by lia.
  split; [done |].
  rewrite Hother; [done |]. by rewrite entries_with_noEntries by lia.
Qed.

Lemma resume_each_app ps qs w :
  resume_each (ps ++ qs) w =
  match resume_each ps w with Some w1 => resume_each qs w1 | None => None end.
Proof.
  revert w. induction ps as [|p ps IH]; intros w; simpl; [done |].
  destruct (resume_at p w); [apply IH | done].
Qed.

(** X21. Waking a task up and registering it again.  A suspended task
    that is awakened and then added to a registry that does not hold it
    has its worker invoked by the very next sweep, whatever the clock
    reads; that sweep resumes the tasks registered before it first. *)
Theorem reregistered_task_runs_at_next_sweep
    (p : Z) (c : CoRoutine) (s : Scheduler) (w : World) :
  registry_inv s →
  0 ≤ p < 256 ^ Z.of_nat ptr_bytes →
  p ∉ entries s →
  (∀ q, q ∈ entries s → is_Some (heap w !! q)) →
  isSuspended c = true →
  heap w !! p = Some (awake c) →
  entries (addCoRoutine uninit p s) = entries s ++ [p] ∧
  ∃ w' c',
    runOnce false (addCoRoutine uninit p s) w = Some (addCoRoutine uninit p s, w') ∧
    heap w' !! p = Some c' ∧
    worker_calls c' = S (worker_calls c).
Proof.
  intros Hinv Hp Hnotin Hlive Hs Hc.
  pose proof (addCoRoutine_entries uninit p s Hinv Hp) as Hent.
  split; [done |].
  destruct (resume_each_spec (entries s) w Hlive) as (w1 & rs & Heach & _).
  destruct (resume_each_frame _ _ _ Heach) as (Hother & _ & _).
  assert (heap w1 !! p = Some (awake c)) as Hc1 by (by rewrite Hother).
  exists {| heap := <[p := fst (resume (awake c) (clock w1))]> (heap w1);
            clock := snd (resume (awake c) (clock w1));
            resumed := resumed w1 ++ [(p, reads (clock w1))] |},
         (fst (resume (awake c) (clock w1))).
  split; [| split].
  - rewrite runOnce_no_prune, Hent, resume_each_app, Heach. cbn [resume_each].
    by rewrite (resume_at_Some p (awake c) w1 Hc1).
  - simpl. apply lookup_insert_eq.
  - unfold isSuspended in Hs. unfold awake. rewrite Hs.
    exact (proj1 (first_run_effect (set_suspended false (set_nextRun 0 c))
                    (clock w1) eq_refl eq_refl)).
Qed.

End Together.

(** * The sweep and registry theorems at concrete inputs (AVR) *)

Lemma registry_AB_entries : entries (pf := avr) registry_AB = [addr_A; addr_B].
Proof. vm_compute. reflexivity. Qed.

Lemma registry_ABT_entries :
  entries (pf := avr) registry_ABT = [addr_A; addr_B; addr_T].
Proof. vm_compute. reflexivity. Qed.

Lemma registry_AB_inv : registry_inv (pf := avr) registry_AB.
Proof.
  split; [reflexivity |]. split; [vm_compute; lia |].
  right. exists 1%nat. reflexivity.
Qed.

Lemma sweep_touches_registered_tasks_only_witness :
  (∀ q, q ∉ entries (pf := avr) registry_AB →
        heap (sweep_world (pf := avr) false registry_AB (three_tasks [0; 0])) !! q
        = heap (three_tasks [0; 0]) !! q) ∧
  (∀ q, is_Some (heap (sweep_world (pf := avr) false registry_AB (three_tasks [0; 0])) !! q)
        ↔ is_Some (heap (three_tasks [0; 0]) !! q)) ∧
  readings (clock (sweep_world (pf := avr) false registry_AB (three_tasks [0; 0])))
  = readings (clock (three_tasks [0; 0])).
Proof.
  apply (sweep_touches_registered_tasks_only (pf := avr) false registry_AB
           (sweep_registry (pf := avr) false registry_AB (three_tasks [0; 0]))
           (three_tasks [0; 0])).
  vm_compute. reflexivity.
Defined.

Lemma sweep_of_dormant_tasks_does_no_work_witness :
  ∃ w', runOnce (pf := avr) false registry_AB (two_dormant [5; 9]) = Some (registry_AB, w') ∧
        heap w' = heap (two_dormant [5; 9]) ∧
        reads (clock w') = Nat.add (reads (clock (two_dormant [5; 9]))) (noEntries registry_AB).
Proof.
  apply (sweep_of_dormant_tasks_does_no_work (pf := avr) registry_AB (two_dormant [5; 9])).
  intros p Hp. rewrite registry_AB_entries in Hp.
  apply elem_of_cons in Hp as [-> | Hp]; [vm_compute; eauto |].
  apply list_elem_of_singleton in Hp as ->. vm_compute; eauto.
Defined.

Lemma pruning_touches_registry_only_witness :
  runOnce (pf := avr) false registry_ABT (dormant_tail [0; 0; 0])
  = Some (registry_ABT, sweep_world (pf := avr) true registry_ABT (dormant_tail [0; 0; 0])) ∧
  arraySize (sweep_registry (pf := avr) true registry_ABT (dormant_tail [0; 0; 0]))
  = arraySize registry_ABT ∧
  (noEntries (sweep_registry (pf := avr) true registry_ABT (dormant_tail [0; 0; 0]%Z))
   ≤ noEntries registry_ABT)%nat ∧
  length (coRoutines (sweep_registry (pf := avr) true registry_ABT (dormant_tail [0; 0; 0])))
  = length (coRoutines registry_ABT).
Proof.
  apply (pruning_touches_registry_only (pf := avr) registry_ABT
           (sweep_registry (pf := avr) true registry_ABT (dormant_tail [0; 0; 0]))
           (dormant_tail [0; 0; 0])
           (sweep_world (pf := avr) true registry_ABT (dormant_tail [0; 0; 0]))).
  vm_compute. reflexivity.
Defined.

Lemma sweep_invokes_each_worker_at_most_once_witness :
  ∃ c', heap (sweep_world (pf := avr) false registry_AB (two_periodic [0; 0])) !! addr_B
        = Some c' ∧
        (worker_calls (every 100%Z) ≤ worker_calls c' ≤ S (worker_calls (every 100%Z)))%nat.
Proof.
  apply (sweep_invokes_each_worker_at_most_once (pf := avr) false registry_AB
           (sweep_registry (pf := avr) false registry_AB (two_periodic [0; 0]))
           (two_periodic [0; 0])
           (sweep_world (pf := avr) false registry_AB (two_periodic [0; 0]))
           addr_B (every 100)).
  - rewrite registry_AB_entries. apply NoDup_cons. split; [| apply NoDup_singleton].
    intros Hin. apply list_elem_of_singleton in Hin. discriminate.
  - vm_compute. reflexivity.
  - vm_compute. reflexivity.
Defined.

Lemma loop_keeps_sweeping_witness :
  ∃ w' log,
    loop_n (pf := avr) 3 registry_AB (two_periodic [0; 0; 99; 100; 200; 200])
    = Some (registry_AB, w') ∧
    resumed w' = resumed (two_periodic [0; 0; 99; 100; 200; 200]) ++ log ∧
    map fst log = concat (replicate 3 (entries (pf := avr) registry_AB)) ∧
    (∀ p, p ∈ entries (pf := avr) registry_AB → is_Some (heap w' !! p)).
Proof.
  apply (loop_keeps_sweeping (pf := avr) 3 registry_AB
           (two_periodic [0; 0; 99; 100; 200; 200])).
  intros p Hp. rewrite registry_AB_entries in Hp.
  apply elem_of_cons in Hp as [-> | Hp]; [vm_compute; eauto |].
  apply list_elem_of_singleton in Hp as ->. vm_compute; eauto.
Defined.

Lemma dormant_tail_is_dormant i p :
  (1 ≤ i)%nat → entries (pf := avr) registry_ABT !! i = Some p →
  ∃ c, heap (sweep_world (pf := avr) false registry_ABT (dormant_tail [0; 0; 0])) !! p = Some c
       ∧ isSuspended c = true.
Proof.
  intros Hi. rewrite registry_ABT_entries.
  destruct i as [|[|[|i]]]; [lia | | |]; simpl; intros [= <-]; vm_compute; eauto.
Qed.

Lemma prune_removes_dormant_tail_witness :
  ∃ s', runOnce (pf := avr) true registry_ABT (dormant_tail [0; 0; 0])
        = Some (s', sweep_world (pf := avr) false registry_ABT (dormant_tail [0; 0; 0])) ∧
        entries (pf := avr) s' = take 1 (entries (pf := avr) registry_ABT) ∧
        noEntries s' = 1%nat ∧
        arraySize s' = arraySize registry_ABT ∧
        coRoutines s' = coRoutines registry_ABT.
Proof.
  apply (prune_removes_dormant_tail (pf := avr) registry_ABT (dormant_tail [0; 0; 0])
           (sweep_world (pf := avr) false registry_ABT (dormant_tail [0; 0; 0])) 1).
  - vm_compute. reflexivity.
  - vm_compute. lia.
  - apply dormant_tail_is_dormant.
  - intros i p Hi. lia.
Defined.

Lemma add_then_remove_restores_entries_witness :
  entries (pf := avr)
    (removeCoRoutine (pf := avr) addr_T (addCoRoutine (pf := avr) zero_filled addr_T registry_AB))
  = entries (pf := avr) registry_AB ∧
  noEntries
    (removeCoRoutine (pf := avr) addr_T (addCoRoutine (pf := avr) zero_filled addr_T registry_AB))
  = noEntries registry_AB ∧
  (arraySize registry_AB
   ≤ arraySize
       (removeCoRoutine (pf := avr) addr_T
          (addCoRoutine (pf := avr) zero_filled addr_T registry_AB)))%nat.
Proof.
  apply (add_then_remove_restores_entries (pf := avr) zero_filled addr_T registry_AB).
  - apply registry_AB_inv.
  - vm_compute. lia.
  - vm_compute. split; [discriminate | reflexivity].
Defined.


Lemma task_added_twice_is_resumed_twice_witness :
  entries (pf := avr) (run_ops (pf := avr) zero_filled [Add addr_T; Add addr_T] Scheduler_new)
  = [addr_T; addr_T] ∧
  ∃ w',
    runOnce (pf := avr) false
      (run_ops (pf := avr) zero_filled [Add addr_T; Add addr_T] Scheduler_new)
      (world_of [(addr_T, every 0)] [0; 0])
    = Some (run_ops (pf := avr) zero_filled [Add addr_T; Add addr_T] Scheduler_new, w') ∧
    heap w' !! addr_T
    = Some (fst (resume_n (pf := avr) 2 (every 0) (clock (world_of [(addr_T, every 0)] [0; 0])))) ∧
    clock w'
    = snd (resume_n (pf := avr) 2 (every 0) (clock (world_of [(addr_T, every 0)] [0; 0]))) ∧
    map fst (drop (length (resumed (world_of [(addr_T, every 0)] [0; 0]))) (resumed w'))
    = [addr_T; addr_T].
Proof.
  apply (task_added_twice_is_resumed_twice (pf := avr) zero_filled addr_T (every 0)
           (world_of [(addr_T, every 0)] [0; 0])).
  - vm_compute. split; [discriminate | reflexivity].
  - vm_compute. reflexivity.
Defined.

Lemma pruned_task_is_left_alone_witness :
  entries (pf := avr)
    (loop_registry (pf := avr) 2
       (sweep_registry (pf := avr) true registry_ABT (dormant_tail [0; 0; 0; 500; 900]))
       (sweep_world (pf := avr) true registry_ABT (dormant_tail [0; 0; 0; 500; 900])))
  = take 1 (entries (pf := avr) registry_ABT) ∧
  heap (loop_world (pf := avr) 2
          (sweep_registry (pf := avr) true registry_ABT (dormant_tail [0; 0; 0; 500; 900]))
          (sweep_world (pf := avr) true registry_ABT (dormant_tail [0; 0; 0; 500; 900])))
    !! addr_T
  = Some one_shot_done.
Proof.
  apply (pruned_task_is_left_alone (pf := avr) registry_ABT _
           (dormant_tail [0; 0; 0; 500; 900])
           (sweep_world (pf := avr) false registry_ABT (dormant_tail [0; 0; 0; 500; 900]))
           _ 1 2 addr_T one_shot_done).
  - vm_compute. reflexivity.
  - vm_compute. lia.
  - intros i p Hi. rewrite registry_ABT_entries.
    destruct i as [|[|[|i]]]; [lia | | |]; simpl; intros [= <-]; vm_compute; eauto.
  - intros i p Hi. lia.
  - rewrite registry_ABT_entries. simpl. intros Hin.
    apply list_elem_of_singleton in Hin. discriminate.
  - vm_compute. reflexivity.
  - vm_compute. reflexivity.
Defined.

Lemma reregistered_task_runs_at_next_sweep_witness :
  entries (pf := avr) (addCoRoutine (pf := avr) zero_filled addr_T registry_AB)
  = entries (pf := avr) registry_AB ++ [addr_T] ∧
  ∃ w' c',
    runOnce (pf := avr) false (addCoRoutine (pf := avr) zero_filled addr_T registry_AB)
      (awakened_T [0; 0; 7])
    = Some (addCoRoutine (pf := avr) zero_filled addr_T registry_AB, w') ∧
    heap w' !! addr_T = Some c' ∧
    worker_calls c' = S (worker_calls dormant_task).
Proof.
  apply (reregistered_task_runs_at_next_sweep (pf := avr) zero_filled addr_T dormant_task
           registry_AB (awakened_T [0; 0; 7])).
  - apply registry_AB_inv.
  - vm_compute. split; [discriminate | reflexivity].
  - rewrite registry_AB_entries. intros Hin.
    apply elem_of_cons in Hin as [Hin | Hin]; [discriminate |].
    apply list_elem_of_singleton in Hin. discriminate.
  - intros q Hq. rewrite registry_AB_entries in Hq.
    apply elem_of_cons in Hq as [-> | Hq]; [vm_compute; eauto |].
    apply list_elem_of_singleton in Hq as ->. vm_compute; eauto.
  - reflexivity.
  - vm_compute. reflexivity.
Defined.
